(** * generate_icons: the icon list generator of hyprland-autoname-workspaces

    A shallow embedding of [contrib/generate_icons.py] and the properties
    of its specification.

    The script is Python.  Its strings are sequences of Unicode code
    points, its integers are unbounded, and every call may raise.  The
    embedding keeps all three: a [str] is a list of code points in [Z],
    a Python [int] is a [Z], and a computation is a pair of the lines
    printed so far and either a value or the exception raised. *)

From Stdlib Require Import ZArith String Ascii List Bool Lia.
Import ListNotations.
Local Open Scope Z_scope.

(** ** Python values used by the script *)

(** A Python [str]: the sequence of its code points. *)
Definition str := list Z.

(** The [str] denoted by an ASCII literal of the source. *)
Definition lit (s : string) : str :=
  map (fun a => Z.of_N (N_of_ascii a)) (list_ascii_of_string s).

(** The double quote, which a literal of this file cannot hold. *)
Definition dquote : Z := 34.

(** The exceptions the script can meet. *)
Inductive exn : Type :=
| ValueError
| OverflowError
| TypeError
| AttributeError
| KeyError (key : str)
| UnicodeEncodeError
| RequestException
| YAMLError.

Inductive result (A : Type) : Type :=
| Ok (a : A)
| Raise (e : exn).
Arguments Ok {A} a.
Arguments Raise {A} e.

Definition rbind {A B} (r : result A) (f : A -> result B) : result B :=
  match r with
  | Ok a => f a
  | Raise e => Raise e
  end.

(** ** The builtins [int(s, 16)] and [chr] *)

Module Py.

(** [Py_ISSPACE] of pyctype: space, and tab to carriage return. *)
Definition Py_ISSPACE (c : Z) : bool :=
  ((9 <=? c) && (c <=? 13)) || (c =? 32).

(** [Py_UNICODE_ISSPACE] on the code points from 127 on, the only ones it
    is asked about. *)
Definition unicode_isspace (c : Z) : bool :=
  (c =? 0x85) || (c =? 0xA0) || (c =? 0x1680)
  || ((0x2000 <=? c) && (c <=? 0x200A))
  || (c =? 0x2028) || (c =? 0x2029) || (c =? 0x202F)
  || (c =? 0x205F) || (c =? 0x3000).

(** The decimal digits of the Unicode character database (version 14, the
    one of CPython 3.11) beyond ASCII come in runs of ten, zero to nine;
    this is the code point of the zero of each run. *)
Definition decimal_zeros : list Z :=
  [ 0x660; 0x6F0; 0x7C0; 0x966; 0x9E6; 0xA66; 0xAE6; 0xB66; 0xBE6;
    0xC66; 0xCE6; 0xD66; 0xDE6; 0xE50; 0xED0; 0xF20; 0x1040; 0x1090;
    0x17E0; 0x1810; 0x1946; 0x19D0; 0x1A80; 0x1A90; 0x1B50; 0x1BB0;
    0x1C40; 0x1C50; 0xA620; 0xA8D0; 0xA900; 0xA9D0; 0xA9F0; 0xAA50;
    0xABF0; 0xFF10; 0x104A0; 0x10D30; 0x11066; 0x110F0; 0x11136;
    0x111D0; 0x112F0; 0x11450; 0x114D0; 0x11650; 0x116C0; 0x11730;
    0x118E0; 0x11950; 0x11C50; 0x11D50; 0x11DA0; 0x16A60; 0x16AC0;
    0x16B50; 0x1D7CE; 0x1D7D8; 0x1D7E2; 0x1D7EC; 0x1D7F6; 0x1E140;
    0x1E2F0; 0x1E950; 0x1FBF0 ].

(** [Py_UNICODE_TODECIMAL] beyond ASCII: the digit, or [None] for the
    negative answer. *)
Definition unicode_todecimal (c : Z) : option Z :=
  match find (fun z => (z <=? c) && (c <? z + 10)) decimal_zeros with
  | Some z => Some (c - z)
  | None => None
  end.

(** [_PyUnicode_TransformDecimalAndSpaceToASCII]: code points below 127
    are kept, other white space becomes a space, other decimal digits
    become ASCII digits, and anything else ends the buffer with a
    question mark. *)
Fixpoint transform_decimal_and_space (s : str) : str :=
  match s with
  | [] => []
  | ch :: rest =>
      if ch <? 127 then ch :: transform_decimal_and_space rest
      else if unicode_isspace ch then 32 :: transform_decimal_and_space rest
      else match unicode_todecimal ch with
           | Some d => (48 + d) :: transform_decimal_and_space rest
           | None => [63]
           end
  end.

(** [_PyLong_DigitValue]: 37 for what is no digit in any base. *)
Definition digit_value (c : Z) : Z :=
  if (48 <=? c) && (c <=? 57) then c - 48
  else if (97 <=? c) && (c <=? 122) then c - 97 + 10
  else if (65 <=? c) && (c <=? 90) then c - 65 + 10
  else 37.

Definition is_hexdigit (c : Z) : bool := digit_value c <? 16.

Definition underscore : Z := 95.

Fixpoint skip_space (p : str) : str :=
  match p with
  | c :: rest => if Py_ISSPACE c then skip_space rest else p
  | [] => []
  end.

(** [long_from_binary_base] for base 16.  The C function scans the digits
    and underscores, refusing two underscores in a row and one at the
    end, and then folds the digits into the number in a second pass; here
    the number [z] is accumulated during the scan.  [prev] is the
    character before [p], 0 at the start.  The answer is the number and
    the rest of the buffer. *)
Fixpoint long_from_binary_base (p : str) (prev : Z) (z : Z) : option (Z * str) :=
  let stop := if prev =? underscore then None else Some (z, p) in
  match p with
  | c :: rest =>
      if is_hexdigit c || (c =? underscore) then
        if c =? underscore then
          if prev =? underscore then None
          else long_from_binary_base rest c z
        else long_from_binary_base rest c (z * 16 + digit_value c)
      else stop
  | [] => stop
  end.

(** The sign: a plus is skipped, a minus is skipped and remembered. *)
Definition take_sign (p : str) : Z * str :=
  match p with
  | c :: rest =>
      if c =? 43 then (1, rest)
      else if c =? 45 then (-1, rest)
      else (1, p)
  | [] => (1, p)
  end.

(** The prefix [0x] or [0X], and the one underscore allowed after it. *)
Definition skip_prefix (p : str) : str :=
  match p with
  | c0 :: c1 :: rest =>
      if (c0 =? 48) && ((c1 =? 120) || (c1 =? 88)) then
        match rest with
        | c2 :: rest' => if c2 =? underscore then rest' else rest
        | [] => rest
        end
      else p
  | _ => p
  end.

Definition leading_underscore (p : str) : bool :=
  match p with
  | c :: _ => c =? underscore
  | [] => false
  end.

(** [PyLong_FromString] with base 16: white space, a sign, the prefix,
    the digits (at least one character of them, [str == start]
    otherwise), white space, and the end of the buffer. *)
Definition PyLong_FromString (buffer : str) : option Z :=
  let (sign, s2) := take_sign (skip_space buffer) in
  let start := skip_prefix s2 in
  if leading_underscore start then None
  else
    match long_from_binary_base start 0 0 with
    | None => None
    | Some (z, rest) =>
        if Nat.eqb (length rest) (length start) then None
        else
          match skip_space rest with
          | [] => Some (sign * z)
          | _ :: _ => None
          end
    end.

(** [int(s, 16)] for a [str] s. *)
Definition int16 (s : str) : result Z :=
  match PyLong_FromString (transform_decimal_and_space s) with
  | Some z => Ok z
  | None => Raise ValueError
  end.

(** [chr(i)]: the argument must fit a C [int], and then be a code point. *)
Definition chr (i : Z) : result str :=
  if (i <? - 2 ^ 31) || (2 ^ 31 - 1 <? i) then Raise OverflowError
  else if (i <? 0) || (0x10FFFF <? i) then Raise ValueError
  else Ok [i].

End Py.

(** ** The script *)

(** [unicode_symbol(hex_code)] is [chr(int(hex_code, 16))]. *)
Definition unicode_symbol (hex_code : str) : result str :=
  rbind (Py.int16 hex_code) Py.chr.

(** *** Output and exceptions

    A computation of the script: the lines it has written to standard
    output, in order, and its value or the exception that ended it.  The
    lines printed before an exception stay printed. *)
Definition io (A : Type) : Type := (list str * result A)%type.

Definition ret {A} (a : A) : io A := ([], Ok a).

Definition bind {A B} (m : io A) (f : A -> io B) : io B :=
  match m with
  | (out, Ok a) => let (out', r) := f a in (out ++ out', r)
  | (out, Raise e) => (out, Raise e)
  end.

Definition lift {A} (r : result A) : io A := ([], r).

(** Standard output is UTF-8 text with the strict error handler, which
    encodes every code point but the surrogates, U+D800 to U+DFFF. *)
Definition surrogate (c : Z) : bool := (0xD800 <=? c) && (c <=? 0xDFFF).

Definition utf8_encodable (line : str) : bool :=
  forallb (fun c => negb (surrogate c)) line.

(** [print(line)]: the line is encoded whole before any of it is
    written, so a line with a surrogate raises and writes nothing. *)
Definition print (line : str) : io unit :=
  if utf8_encodable line then ([line], Ok tt)
  else ([], Raise UnicodeEncodeError).

Declare Scope io_scope.
Delimit Scope io_scope with io.
Notation "x <- m ;; k" := (bind m (fun x => k))
  (at level 61, m at next level, right associativity) : io_scope.
Notation "m ;; k" := (bind m (fun _ => k))
  (at level 61, right associativity) : io_scope.
Local Open Scope io_scope.

(** A [for] loop over a list. *)
Fixpoint for_each {A} (l : list A) (body : A -> io unit) : io unit :=
  match l with
  | [] => ret tt
  | x :: rest => body x ;; for_each rest body
  end.

(** *** The document

    What [yaml.full_load] gives for [icons.yml]: a dictionary from icon
    names to icons, in the order of the document.  An icon is itself a
    dictionary; the script reads its keys [unicode] and [search], and the
    key [terms] of the latter, whose value is a list of strings or null.
    A key read by subscript may be missing, which [None] records. *)
Inductive terms_value : Type :=
| TermsNone
| TermsList (terms : list str).

Record search_dict : Type := mk_search {
  search_terms : option terms_value
}.

Record icon_dict : Type := mk_icon {
  icon_unicode : option str;
  icon_search : option search_dict
}.

(** A loaded document: a dictionary of icons, or a value that is no
    dictionary (a scalar, a list, null), which has no [items].  Names,
    unicodes and terms are strings here, as they are in [icons.yml];
    dictionaries with values of other types are outside the model. *)
Inductive document : Type :=
| Icons (entries : list (str * icon_dict))
| NoMapping.

Definition items (d : document) : result (list (str * icon_dict)) :=
  match d with
  | Icons entries => Ok entries
  | NoMapping => Raise AttributeError
  end.

(** [icon["unicode"]] *)
Definition getitem_unicode (icon : icon_dict) : result str :=
  match icon_unicode icon with
  | Some u => Ok u
  | None => Raise (KeyError (lit "unicode"))
  end.

(** [icon["search"]["terms"]] *)
Definition getitem_search_terms (icon : icon_dict) : result terms_value :=
  match icon_search icon with
  | None => Raise (KeyError (lit "search"))
  | Some s =>
      match search_terms s with
      | None => Raise (KeyError (lit "terms"))
      | Some t => Ok t
      end
  end.

Definition is_not_None (t : terms_value) : bool :=
  match t with
  | TermsNone => false
  | TermsList _ => true
  end.

(** The right operand of [[icon_name] + ...] has to be a list. *)
Definition list_operand (t : terms_value) : result (list str) :=
  match t with
  | TermsList l => Ok l
  | TermsNone => Raise TypeError
  end.

(** [x] is not the empty string, the test of the [filter]. *)
Definition nonempty (x : str) : bool :=
  match x with
  | [] => false
  | _ :: _ => true
  end.

(** *** The functions of the script *)

(** [f'"(?i){name}" = "{symbol}"'] *)
Definition icon_line (name symbol : str) : str :=
  [dquote] ++ lit "(?i)" ++ name ++ [dquote] ++ lit " = "
  ++ [dquote] ++ symbol ++ [dquote].

Definition term_icon : str := lit "f120".

Definition print_custom_icons : io unit :=
  (s <- lift (unicode_symbol term_icon) ;;
   print (icon_line (lit "alacritty") s)) ;;
  (s <- lift (unicode_symbol term_icon) ;;
   print (icon_line (lit "kitty") s)).

(** The names of one icon: the condition of the conditional expression
    is evaluated first, and [and] looks at the terms only when
    [include_aliases] holds. *)
Definition icon_names (icon_name : str) (icon : icon_dict)
    (include_aliases : bool) : result (list str) :=
  rbind
    (if include_aliases
     then rbind (getitem_search_terms icon) (fun t => Ok (is_not_None t))
     else Ok false)
    (fun cond =>
       rbind
         (if cond
          then rbind (getitem_search_terms icon) list_operand
          else Ok [])
         (fun aliases => Ok ([icon_name] ++ aliases))).

(** The body of the outer loop of [print_icon_names]. *)
Definition print_icon (include_aliases : bool) (item : str * icon_dict)
    : io unit :=
  let (icon_name, icon) := item in
  names <- lift (icon_names icon_name icon include_aliases) ;;
  for_each (filter nonempty names) (fun name =>
    s <- lift (rbind (getitem_unicode icon) unicode_symbol) ;;
    print (icon_line name s)).

Definition print_icon_names (icons_dict : document) (include_aliases : bool)
    : io unit :=
  entries <- lift (items icons_dict) ;;
  for_each entries (print_icon include_aliases).

(** *** The run *)

Record response : Type := mk_response {
  status_code : Z;
  text : str
}.

(** What a run meets outside the script: the answer of [requests.get] to
    a URI and the value of [yaml.full_load] on a text, each of which may
    be an exception instead. *)
Record world : Type := mk_world {
  requests_get : str -> result response;
  yaml_full_load : str -> result document
}.

Definition main (w : world) (uri version : str) (include_aliases : bool)
    : io unit :=
  icons_dict <-
    lift (rbind (requests_get w uri) (fun r => yaml_full_load w (text r))) ;;
  print (lit "[icons]") ;;
  print_custom_icons ;;
  print_icon_names icons_dict include_aliases.

(** The command line as [argparse] sees it: the value given to
    [--revision], if any, and whether [--include_aliases] is present. *)
Record command_line : Type := mk_command_line {
  given_revision : option str;
  given_include_aliases : bool
}.

Record namespace : Type := mk_namespace {
  revision : str;
  include_aliases : bool
}.

(** [parser.parse_args()] on a command line it accepts, with the default
    of [--revision] and the [store_true] action of [--include_aliases].
    On [--help] and on a command line it refuses, [argparse] ends the
    interpreter itself, before the rest of the block; such command lines
    are not among the values of [command_line]. *)
Definition parse_args (argv : command_line) : namespace :=
  {| revision :=
       match given_revision argv with
       | Some r => r
       | None => lit "master"
       end;
     include_aliases := given_include_aliases argv |}.

Definition URI (REVISION : str) : str :=
  lit "https://raw.githubusercontent.com"
  ++ lit "/FortAwesome/Font-Awesome/" ++ REVISION ++ lit "/metadata/icons.yml".

(** The block under [if __name__ == "__main__"]. *)
Definition script (w : world) (argv : command_line) : io unit :=
  let args := parse_args argv in
  let REVISION := revision args in
  main w (URI REVISION) (revision args) (include_aliases args).

(** The exit status of the interpreter: 1 after an uncaught exception. *)
Definition exit_status {A} (r : result A) : Z :=
  match r with
  | Ok _ => 0
  | Raise _ => 1
  end.

(** ** The words of the specification *)

(** An output line, ["(?i)NAME" = "SYMBOL"], spelled out: a double quote,
    the four characters [(?i)], the name, a double quote, a space, an
    equals sign, a space, a double quote, the symbol, a double quote. *)
Definition output_line (name symbol : str) : str :=
  34 :: 40 :: 63 :: 105 :: 41
     :: name ++ 34 :: 32 :: 61 :: 32 :: 34 :: symbol ++ [34].

(** A line that UTF-8 can encode. *)
Definition encodable (line : str) : Prop := utf8_encodable line = true.

(** A hexadecimal digit and its value. *)
Definition hex_digit (c : Z) : Prop :=
  48 <= c <= 57 \/ 65 <= c <= 70 \/ 97 <= c <= 102.

Definition hex_digit_value (c : Z) : Z :=
  if c <=? 57 then c - 48
  else if c <=? 70 then c - 55
  else c - 87.

(** The integer a string of hexadecimal digits denotes in base 16, most
    significant digit first. *)
Fixpoint base16_value (digits : str) : Z :=
  match digits with
  | [] => 0
  | d :: rest =>
      hex_digit_value d * 16 ^ Z.of_nat (length rest) + base16_value rest
  end.

(** A hexadecimal numeral: one hexadecimal digit or more, and no other
    character. *)
Definition hex_numeral (s : str) : Prop :=
  s <> [] /\ Forall hex_digit s.

(** A code point of Unicode. *)
Definition code_point (v : Z) : Prop := 0 <= v <= 0x10FFFF.

(** *** The strings [int(s, 16)] accepts

    Digits with single underscores between them; before them a sign and
    a prefix, each optional; white space around the whole.  Beyond
    ASCII, a white space character stands for a space and a decimal
    digit for its ASCII digit. *)
Inductive digit_part : str -> Prop :=
| digit_last d : hex_digit d -> digit_part [d]
| digit_next d b : hex_digit d -> digit_part b -> digit_part (d :: b)
| digit_sep d b : hex_digit d -> digit_part b -> digit_part (d :: 95 :: b).

Definition digits_of (body : str) : str :=
  filter (fun c => negb (c =? 95)) body.

Inductive sign_part : str -> Z -> Prop :=
| sign_none : sign_part [] 1
| sign_plus : sign_part [43] 1
| sign_minus : sign_part [45] (-1).

Inductive prefix_part : str -> Prop :=
| prefix_none : prefix_part []
| prefix_0x x : x = 120 \/ x = 88 -> prefix_part [48; x]
| prefix_0x_ x : x = 120 \/ x = 88 -> prefix_part [48; x; 95].

Definition white_space (c : Z) : Prop := 9 <= c <= 13 \/ c = 32.

Inductive base16_literal : str -> Z -> Prop :=
| literal_parts ws1 sg sgn pre body ws2 :
    Forall white_space ws1 ->
    sign_part sg sgn ->
    prefix_part pre ->
    digit_part body ->
    Forall white_space ws2 ->
    base16_literal (ws1 ++ sg ++ pre ++ body ++ ws2)
                   (sgn * base16_value (digits_of body)).

Inductive ascii_image : Z -> Z -> Prop :=
| image_ascii c : c < 127 -> ascii_image c c
| image_space c :
    127 <= c -> Py.unicode_isspace c = true -> ascii_image c 32
| image_decimal c d :
    127 <= c -> Py.unicode_isspace c = false ->
    Py.unicode_todecimal c = Some d -> ascii_image c (48 + d).

Definition int_literal (s : str) (v : Z) : Prop :=
  exists buffer, Forall2 ascii_image s buffer /\ base16_literal buffer v.

(** What the scan has consumed when it started after [prev]. *)
Definition digit_tail (prev : Z) (b : str) : Prop :=
  (b = [] /\ prev <> 95)
  \/ digit_part b
  \/ (prev <> 95 /\ exists b', b = 95 :: b' /\ digit_part b').

(** *** The lines of an entry *)

(** The aliases of an icon, where [icon["search"]["terms"]] can be read:
    none for null. *)
Definition entry_aliases (icon : icon_dict) : option (list str) :=
  match icon_search icon with
  | Some s =>
      match search_terms s with
      | Some TermsNone => Some []
      | Some (TermsList l) => Some l
      | None => None
      end
  | None => None
  end.

(** The symbol of an icon, where it has one. *)
Definition entry_symbol (icon : icon_dict) : result str :=
  rbind (getitem_unicode icon) unicode_symbol.

(** The lines for the names that are not empty, all with one symbol. *)
Definition name_lines (names : list str) (symbol : str) : list str :=
  map (fun name => output_line name symbol) (filter nonempty names).

(** One line for the primary name and one for every alias. *)
Definition line_per_name (icon_name : str) (aliases : list str)
    (symbol : str) : list str :=
  output_line icon_name symbol
  :: map (fun alias => output_line alias symbol) aliases.

(** An icon without the key [search]. *)
Definition without_search (item : str * icon_dict) : str * icon_dict :=
  (fst item, {| icon_unicode := icon_unicode (snd item);
                icon_search := None |}).

(** The two custom lines. *)
Definition custom_lines : list str :=
  [ output_line (lit "alacritty") [0xF120];
    output_line (lit "kitty") [0xF120] ].

(** A status of the 2xx class. *)
Definition success_status (status : Z) : bool :=
  (200 <=? status) && (status <? 300).

(** ** Sample values *)

Definition str_eqb (a b : str) : bool :=
  if list_eq_dec Z.eq_dec a b then true else false.

(** The entry of the specification's example: [500px], with the unicode
    [f26e] and the search term [px]. *)
Definition icon_500px : icon_dict :=
  {| icon_unicode := Some (lit "f26e");
     icon_search := Some {| search_terms := Some (TermsList [lit "px"]) |} |}.

(** The same with an empty search term after [px]. *)
Definition icon_empty_alias : icon_dict :=
  {| icon_unicode := Some (lit "f26e");
     icon_search :=
       Some {| search_terms := Some (TermsList [lit "px"; []]) |} |}.

(** The same with [terms:] left null, with no key [terms], and with no
    key [search]. *)
Definition icon_null_terms : icon_dict :=
  {| icon_unicode := Some (lit "f26e");
     icon_search := Some {| search_terms := Some TermsNone |} |}.

Definition icon_no_terms : icon_dict :=
  {| icon_unicode := Some (lit "f26e");
     icon_search := Some {| search_terms := None |} |}.

Definition icon_no_search : icon_dict :=
  {| icon_unicode := Some (lit "f26e"); icon_search := None |}.

(** An icon with no key [search] and a unicode that is no numeral. *)
Definition icon_bad_unicode : icon_dict :=
  {| icon_unicode := Some (lit "f12g"); icon_search := None |}.

(** A server that answers every request with the status 404 and the body
    [{}], which YAML loads as the empty dictionary.  No other text is
    loaded in such a run. *)
Definition response_404 : response :=
  {| status_code := 404; text := lit "{}" |}.

Definition world_404 : world :=
  {| requests_get := fun _ => Ok response_404;
     yaml_full_load := fun body =>
       if str_eqb body (lit "{}") then Ok (Icons []) else Raise YAMLError |}.

(** A server that answers with one document, whatever the text. *)
Definition world_of (status : Z) (d : document) : world :=
  {| requests_get := fun uri => Ok {| status_code := status; text := uri |};
     yaml_full_load := fun _ => Ok d |}.

(** A network that is down, and a server whose text is no YAML. *)
Definition world_offline : world :=
  {| requests_get := fun _ => Raise RequestException;
     yaml_full_load := fun _ => Raise YAMLError |}.

Definition world_garbled : world :=
  {| requests_get := fun uri => Ok {| status_code := 200; text := lit "{" |};
     yaml_full_load := fun _ => Raise YAMLError |}.

(** ** Words for whole catalogs and for spellings *)

(** The names the loop has for an entry: its own, and with aliases its
    search terms where they can be read. *)
Definition entry_names (inc : bool) (item : str * icon_dict) : list str :=
  fst item
  :: (if inc
      then match entry_aliases (snd item) with
           | Some aliases => aliases
           | None => []
           end
      else []).

(** An entry the loop gets through: with aliases its search terms can be
    read, and unless every one of its names is empty its unicode decodes
    and each of its lines can be encoded. *)
Definition entry_passes (inc : bool) (item : str * icon_dict) : Prop :=
  (inc = true -> entry_aliases (snd item) <> None)
  /\ (filter nonempty (entry_names inc item) <> [] ->
      exists s, entry_symbol (snd item) = Ok s
                /\ Forall encodable (name_lines (entry_names inc item) s)).

(** The lines of an entry the loop gets through. *)
Definition entry_lines (inc : bool) (item : str * icon_dict) : list str :=
  name_lines (entry_names inc item)
    match entry_symbol (snd item) with
    | Ok s => s
    | Raise _ => []
    end.

(** A list got from another by leaving elements out. *)
Inductive subseq {A : Type} : list A -> list A -> Prop :=
| subseq_nil : subseq [] []
| subseq_skip x l1 l2 : subseq l1 l2 -> subseq l1 (x :: l2)
| subseq_take x l1 l2 : subseq l1 l2 -> subseq (x :: l1) (x :: l2).

(** The capital of an ASCII letter. *)
Definition ascii_upper (c : Z) : Z :=
  if (97 <=? c) && (c <=? 122) then c - 32 else c.

(** ** Proof tools *)

Ltac bools :=
  repeat match goal with
  | H : _ && _ = true |- _ => apply andb_prop in H; destruct H
  | H : _ || _ = true |- _ => apply orb_prop in H; destruct H
  | H : _ || _ = false |- _ => apply orb_false_elim in H; destruct H
  | H : negb _ = true |- _ => apply negb_true_iff in H
  | H : (_ <=? _) = true |- _ => apply Z.leb_le in H
  | H : (_ <=? _) = false |- _ => apply Z.leb_gt in H
  | H : (_ <? _) = true |- _ => apply Z.ltb_lt in H
  | H : (_ <? _) = false |- _ => apply Z.ltb_ge in H
  | H : (_ =? _) = true |- _ => apply Z.eqb_eq in H
  | H : (_ =? _) = false |- _ => apply Z.eqb_neq in H
  end.

Ltac split_ifs :=
  repeat match goal with
  | |- context [if ?b then _ else _] =>
      let E := fresh "E" in destruct b eqn:E
  end.

(** A literal of hexadecimal digits is a numeral. *)
Ltac literal_numeral :=
  split; [discriminate | repeat constructor; unfold hex_digit; simpl; lia].

(** * Properties *)

(** ** Character classes *)

Lemma is_hexdigit_spec c : Py.is_hexdigit c = true <-> hex_digit c.
Proof.
  unfold Py.is_hexdigit, Py.digit_value, hex_digit.
  destruct ((48 <=? c) && (c <=? 57)) eqn:E1;
    [|destruct ((97 <=? c) && (c <=? 122)) eqn:E2;
      [|destruct ((65 <=? c) && (c <=? 90)) eqn:E3]];
    rewrite ?andb_true_iff, ?andb_false_iff, ?Z.leb_le, ?Z.leb_gt,
      ?Z.ltb_lt in *; lia.
Qed.

Lemma is_hexdigit_false c : Py.is_hexdigit c = false <-> ~ hex_digit c.
Proof.
  rewrite <- is_hexdigit_spec. destruct (Py.is_hexdigit c); intuition congruence.
Qed.

Lemma digit_value_hex c : hex_digit c -> Py.digit_value c = hex_digit_value c.
Proof.
  unfold Py.digit_value, hex_digit_value, hex_digit. intros H.
  split_ifs; bools; lia.
Qed.

Lemma hex_digit_value_bound c : hex_digit c -> 0 <= hex_digit_value c < 16.
Proof.
  unfold hex_digit_value, hex_digit. intros H. split_ifs; bools; lia.
Qed.

Lemma Py_ISSPACE_spec c : Py.Py_ISSPACE c = true <-> white_space c.
Proof.
  unfold Py.Py_ISSPACE, white_space.
  rewrite orb_true_iff, andb_true_iff, !Z.leb_le, Z.eqb_eq. tauto.
Qed.

Lemma Py_ISSPACE_false c : Py.Py_ISSPACE c = false <-> ~ white_space c.
Proof.
  rewrite <- Py_ISSPACE_spec. destruct (Py.Py_ISSPACE c); intuition congruence.
Qed.

Lemma hex_digit_not_space c : hex_digit c -> ~ white_space c.
Proof. unfold hex_digit, white_space. lia. Qed.

(** ** White space *)

Lemma skip_space_all ws : Forall white_space ws -> Py.skip_space ws = [].
Proof.
  induction 1 as [|c ws Hc _ IH]; simpl; [reflexivity|].
  apply Py_ISSPACE_spec in Hc. now rewrite Hc.
Qed.

Lemma skip_space_nil_inv p : Py.skip_space p = [] -> Forall white_space p.
Proof.
  induction p as [|c p IH]; simpl; [constructor|].
  destruct (Py.Py_ISSPACE c) eqn:E; [|discriminate].
  intros H. constructor; [now apply Py_ISSPACE_spec | auto].
Qed.

Lemma skip_space_app ws c p :
  Forall white_space ws -> ~ white_space c ->
  Py.skip_space (ws ++ c :: p) = c :: p.
Proof.
  intros Hws Hc. induction Hws as [|d ws Hd _ IH]; simpl.
  - apply Py_ISSPACE_false in Hc. now rewrite Hc.
  - apply Py_ISSPACE_spec in Hd. now rewrite Hd.
Qed.

Lemma skip_space_split p :
  exists ws, p = ws ++ Py.skip_space p /\ Forall white_space ws.
Proof.
  induction p as [|c p (ws & Hp & Hws)]; simpl.
  - exists []. auto.
  - destruct (Py.Py_ISSPACE c) eqn:E.
    + exists (c :: ws). split; [simpl; congruence|].
      constructor; [now apply Py_ISSPACE_spec | assumption].
    + exists []. auto.
Qed.

(** ** The digits *)

Lemma scan_nil prev z :
  Py.long_from_binary_base [] prev z =
  if prev =? 95 then None else Some (z, []).
Proof. reflexivity. Qed.

Lemma scan_cons c rest prev z :
  Py.long_from_binary_base (c :: rest) prev z =
  if Py.is_hexdigit c || (c =? 95) then
    if c =? 95 then
      if prev =? 95 then None else Py.long_from_binary_base rest c z
    else Py.long_from_binary_base rest c (z * 16 + Py.digit_value c)
  else if prev =? 95 then None else Some (z, c :: rest).
Proof. reflexivity. Qed.

Lemma scan_digit d rest prev z :
  hex_digit d ->
  Py.long_from_binary_base (d :: rest) prev z =
  Py.long_from_binary_base rest d (z * 16 + hex_digit_value d).
Proof.
  intros Hd. rewrite scan_cons, <- (digit_value_hex d Hd).
  apply is_hexdigit_spec in Hd as Hb. rewrite Hb. simpl.
  destruct (d =? 95) eqn:E; [|reflexivity].
  bools. unfold hex_digit in Hd. lia.
Qed.

Lemma scan_underscore rest prev z :
  prev <> 95 ->
  Py.long_from_binary_base (95 :: rest) prev z =
  Py.long_from_binary_base rest 95 z.
Proof.
  intros Hp. rewrite scan_cons. rewrite orb_true_r. simpl.
  apply Z.eqb_neq in Hp. now rewrite Hp.
Qed.

Lemma scan_stop ws prev z :
  Forall white_space ws -> prev <> 95 ->
  Py.long_from_binary_base ws prev z = Some (z, ws).
Proof.
  intros Hws Hp. apply Z.eqb_neq in Hp.
  destruct Hws as [|c ws Hc _].
  - now rewrite scan_nil, Hp.
  - rewrite scan_cons, Hp.
    assert (Py.is_hexdigit c = false) as ->.
    { apply is_hexdigit_false. intros Hd.
      now apply hex_digit_not_space in Hd. }
    assert ((c =? 95) = false) as ->.
    { apply Z.eqb_neq. unfold white_space in Hc. lia. }
    reflexivity.
Qed.

Lemma hex_digit_not_underscore d : hex_digit d -> d <> 95.
Proof. unfold hex_digit. lia. Qed.

Lemma digits_of_digit d b :
  hex_digit d -> digits_of (d :: b) = d :: digits_of b.
Proof.
  intros Hd. unfold digits_of. simpl.
  apply hex_digit_not_underscore, Z.eqb_neq in Hd. now rewrite Hd.
Qed.

Lemma digits_of_underscore b : digits_of (95 :: b) = digits_of b.
Proof. reflexivity. Qed.

Lemma scan_complete body :
  digit_part body ->
  forall ws prev z, Forall white_space ws ->
  Py.long_from_binary_base (body ++ ws) prev z =
  Some (z * 16 ^ Z.of_nat (length (digits_of body))
        + base16_value (digits_of body), ws).
Proof.
  induction 1 as [d Hd | d b Hd Hb IH | d b Hd Hb IH]; intros ws prev z Hws.
  - simpl app. rewrite scan_digit by assumption.
    rewrite scan_stop by auto using hex_digit_not_underscore.
    rewrite digits_of_digit by assumption. simpl. do 2 f_equal. lia.
  - simpl app. rewrite scan_digit by assumption.
    rewrite IH by assumption.
    rewrite digits_of_digit by assumption.
    cbn [length base16_value]. rewrite Nat2Z.inj_succ, Z.pow_succ_r by lia.
    do 2 f_equal. ring.
  - simpl app. rewrite scan_digit by assumption.
    rewrite scan_underscore by auto using hex_digit_not_underscore.
    rewrite IH by assumption.
    rewrite digits_of_digit, digits_of_underscore by assumption.
    cbn [length base16_value]. rewrite Nat2Z.inj_succ, Z.pow_succ_r by lia.
    do 2 f_equal. ring.
Qed.

Lemma scan_sound p :
  forall prev z v rest,
  Py.long_from_binary_base p prev z = Some (v, rest) ->
  exists b,
    p = b ++ rest /\ digit_tail prev b
    /\ v = z * 16 ^ Z.of_nat (length (digits_of b))
           + base16_value (digits_of b).
Proof.
  induction p as [|c p IH]; intros prev z v rest H.
  - rewrite scan_nil in H. destruct (prev =? 95) eqn:E; [discriminate|].
    inversion H; subst. apply Z.eqb_neq in E.
    exists []. split; [reflexivity|]. split; [left; auto|simpl; lia].
  - rewrite scan_cons in H.
    destruct (Py.is_hexdigit c || (c =? 95)) eqn:Ec.
    + destruct (c =? 95) eqn:Eu.
      * destruct (prev =? 95) eqn:Ep; [discriminate|].
        apply Z.eqb_eq in Eu. apply Z.eqb_neq in Ep. subst c.
        apply IH in H as (b & -> & Hb & ->).
        exists (95 :: b). split; [reflexivity|]. split; [|reflexivity].
        right; right. split; [assumption|]. exists b. split; [reflexivity|].
        destruct Hb as [[_ Hb] | [Hb | [Hb _]]]; congruence.
      * rewrite orb_false_r in Ec. apply is_hexdigit_spec in Ec.
        apply IH in H as (b & -> & Hb & ->).
        rewrite (digit_value_hex c Ec).
        exists (c :: b). rewrite digits_of_digit by assumption.
        split; [reflexivity|]. split.
        -- right; left.
           destruct Hb as [[-> _] | [Hb | [_ (b' & -> & Hb)]]];
             auto using digit_part.
        -- cbn [length base16_value].
           rewrite Nat2Z.inj_succ, Z.pow_succ_r by lia. ring.
    + destruct (prev =? 95) eqn:E; [discriminate|].
      inversion H; subst. apply Z.eqb_neq in E.
      exists []. split; [reflexivity|]. split; [left; auto|simpl; lia].
Qed.

Lemma digit_part_head b :
  digit_part b -> exists d b', b = d :: b' /\ hex_digit d.
Proof. destruct 1; eauto. Qed.

Lemma digit_part_chars b :
  digit_part b -> Forall (fun c => hex_digit c \/ c = 95) b.
Proof.
  induction 1 as [d Hd | d b Hd _ IH | d b Hd _ IH].
  - constructor; [left; assumption | constructor].
  - constructor; [left; assumption | assumption].
  - constructor; [left; assumption|].
    constructor; [right; reflexivity | assumption].
Qed.

(** ** Sign and prefix *)

Lemma take_sign_complete sg sgn c p :
  sign_part sg sgn -> c <> 43 -> c <> 45 ->
  Py.take_sign (sg ++ c :: p) = (sgn, c :: p).
Proof.
  intros Hs H1 H2. apply Z.eqb_neq in H1, H2.
  destruct Hs; simpl; [now rewrite H1, H2 | reflexivity | reflexivity].
Qed.

Lemma take_sign_sound p sgn p' :
  Py.take_sign p = (sgn, p') -> exists sg, p = sg ++ p' /\ sign_part sg sgn.
Proof.
  unfold Py.take_sign. destruct p as [|c p].
  - intros H; inversion H; subst. exists []. split; [reflexivity|constructor].
  - destruct (c =? 43) eqn:E1; [|destruct (c =? 45) eqn:E2];
      intros H; inversion H; subst; bools; subst.
    + exists [43]. split; [reflexivity|constructor].
    + exists [45]. split; [reflexivity|constructor].
    + exists []. split; [reflexivity|constructor].
Qed.

Lemma skip_prefix_sound p :
  exists pre, p = pre ++ Py.skip_prefix p /\ prefix_part pre.
Proof.
  unfold Py.skip_prefix.
  destruct p as [|c0 [|c1 rest]];
    try (exists []; split; [reflexivity|constructor]).
  destruct ((c0 =? 48) && ((c1 =? 120) || (c1 =? 88))) eqn:E;
    [|exists []; split; [reflexivity|constructor]].
  apply andb_prop in E as [E0 E1]. apply Z.eqb_eq in E0. subst c0.
  assert (c1 = 120 \/ c1 = 88) as Hx
    by (apply orb_prop in E1 as [E1|E1]; apply Z.eqb_eq in E1; auto).
  destruct rest as [|c2 rest'].
  - exists [48; c1]. split; [reflexivity|now constructor].
  - destruct (c2 =? Py.underscore) eqn:E2.
    + apply Z.eqb_eq in E2. subst c2.
      exists [48; c1; 95]. split; [reflexivity|now constructor].
    + exists [48; c1]. split; [reflexivity|now constructor].
Qed.

Lemma skip_prefix_none c p :
  (forall c1 p', p = c1 :: p' -> c1 <> 120 /\ c1 <> 88) ->
  Py.skip_prefix (c :: p) = c :: p.
Proof.
  intros H. unfold Py.skip_prefix. destruct p as [|c1 p']; [reflexivity|].
  destruct (H c1 p' eq_refl) as [H1 H2]. apply Z.eqb_neq in H1, H2.
  now rewrite H1, H2, andb_false_r.
Qed.

Lemma skip_prefix_complete pre body ws :
  prefix_part pre -> digit_part body -> Forall white_space ws ->
  Py.skip_prefix (pre ++ body ++ ws) = body ++ ws.
Proof.
  intros Hpre Hbody Hws. destruct Hpre as [|x Hx|x Hx].
  - simpl app. destruct Hbody as [d Hd | d b Hd Hb | d b Hd Hb]; simpl app.
    + apply skip_prefix_none. intros c1 p' ->.
      apply Forall_inv in Hws. unfold white_space in Hws. lia.
    + apply skip_prefix_none. intros c1 p' E.
      destruct (digit_part_head b Hb) as (d' & b' & -> & Hd').
      inversion E; subst. unfold hex_digit in Hd'. lia.
    + apply skip_prefix_none. intros c1 p' E. inversion E; subst. lia.
  - destruct (digit_part_head body Hbody) as (d & b & -> & Hd).
    apply hex_digit_not_underscore, Z.eqb_neq in Hd.
    simpl. unfold Py.underscore. rewrite Hd.
    destruct Hx as [-> | ->]; reflexivity.
  - simpl. destruct Hx as [-> | ->]; reflexivity.
Qed.

(** ** [PyLong_FromString] accepts the literals and nothing else *)

Lemma PyLong_FromString_complete buffer v :
  base16_literal buffer v -> Py.PyLong_FromString buffer = Some v.
Proof.
  intros [ws1 sg sgn pre body ws2 Hws1 Hsg Hpre Hbody Hws2].
  destruct (digit_part_head body Hbody) as (d & b & Eb & Hd).
  assert (exists c p, pre ++ body ++ ws2 = c :: p
                      /\ c <> 43 /\ c <> 45 /\ ~ white_space c)
    as (c & p & Ep & Hc1 & Hc2 & Hc3).
  { subst body. unfold hex_digit, white_space in *.
    destruct Hpre; simpl; eexists; eexists; (split; [reflexivity|]); lia. }
  assert (exists c' p', sg ++ pre ++ body ++ ws2 = c' :: p'
                        /\ ~ white_space c') as (c' & p' & Ep' & Hc').
  { rewrite Ep. unfold white_space in *.
    destruct Hsg; simpl; eexists; eexists; (split; [reflexivity|]);
      assumption || lia. }
  unfold Py.PyLong_FromString.
  rewrite Ep', skip_space_app by assumption.
  rewrite <- Ep', Ep, (take_sign_complete sg sgn) by assumption.
  rewrite <- Ep, skip_prefix_complete by assumption.
  assert (Py.leading_underscore (body ++ ws2) = false) as ->.
  { subst body. simpl. apply Z.eqb_neq. now apply hex_digit_not_underscore. }
  rewrite scan_complete by assumption.
  assert (Nat.eqb (length ws2) (length (body ++ ws2)) = false) as ->.
  { apply Nat.eqb_neq. subst body. rewrite length_app. simpl. lia. }
  rewrite skip_space_all by assumption.
  reflexivity.
Qed.

Lemma PyLong_FromString_sound buffer v :
  Py.PyLong_FromString buffer = Some v -> base16_literal buffer v.
Proof.
  unfold Py.PyLong_FromString. intros H.
  destruct (skip_space_split buffer) as (ws1 & E1 & Hws1).
  destruct (Py.take_sign (Py.skip_space buffer)) as [sgn s2] eqn:Es.
  apply take_sign_sound in Es as (sg & E2 & Hsg).
  destruct (skip_prefix_sound s2) as (pre & E3 & Hpre).
  destruct (Py.leading_underscore (Py.skip_prefix s2)) eqn:Eu; [discriminate|].
  destruct (Py.long_from_binary_base (Py.skip_prefix s2) 0 0)
    as [[z rest]|] eqn:El; [|discriminate].
  destruct (Nat.eqb (length rest) (length (Py.skip_prefix s2))) eqn:En;
    [discriminate|].
  destruct (Py.skip_space rest) eqn:Er; [|discriminate].
  inversion H; subst v; clear H.
  apply skip_space_nil_inv in Er.
  apply scan_sound in El as (body & E4 & Hb & ->).
  assert (digit_part body) as Hbody.
  { destruct Hb as [[-> _] | [Hb | [_ (b' & -> & _)]]].
    - rewrite E4 in En. simpl in En. now rewrite Nat.eqb_refl in En.
    - assumption.
    - rewrite E4 in Eu. simpl in Eu. discriminate. }
  rewrite E1, E2, E3, E4. simpl (0 * _ + _).
  now constructor.
Qed.

Lemma PyLong_FromString_spec buffer v :
  Py.PyLong_FromString buffer = Some v <-> base16_literal buffer v.
Proof.
  split; [apply PyLong_FromString_sound | apply PyLong_FromString_complete].
Qed.

(** ** Beyond ASCII *)

Lemma transform_image s buffer :
  Forall2 ascii_image s buffer -> Py.transform_decimal_and_space s = buffer.
Proof.
  induction 1 as [|c c' s buffer Hc _ IH]; simpl; [reflexivity|].
  destruct Hc as [c Hc | c Hc Hs | c d Hc Hs Hd].
  - apply Z.ltb_lt in Hc. rewrite Hc. now f_equal.
  - apply Z.ltb_ge in Hc. rewrite Hc, Hs. now f_equal.
  - apply Z.ltb_ge in Hc. rewrite Hc, Hs, Hd. now f_equal.
Qed.

Lemma transform_without_question_mark s :
  ~ In 63 (Py.transform_decimal_and_space s) ->
  Forall2 ascii_image s (Py.transform_decimal_and_space s).
Proof.
  induction s as [|c s IH]; simpl; [constructor|].
  destruct (c <? 127) eqn:E1; [|destruct (Py.unicode_isspace c) eqn:E2;
    [|destruct (Py.unicode_todecimal c) as [d|] eqn:E3]]; bools; simpl; intros H.
  - constructor; [now constructor | tauto].
  - constructor; [constructor; assumption || lia | tauto].
  - constructor; [constructor; assumption || lia | tauto].
  - tauto.
Qed.

Lemma literal_without_question_mark buffer v :
  base16_literal buffer v -> ~ In 63 buffer.
Proof.
  intros [ws1 sg sgn pre body ws2 Hws1 Hsg Hpre Hbody Hws2] Hin.
  apply digit_part_chars in Hbody.
  rewrite Forall_forall in Hws1, Hws2, Hbody.
  repeat (apply in_app_or in Hin as [Hin|Hin]).
  - apply Hws1 in Hin. unfold white_space in Hin. lia.
  - destruct Hsg; simpl in Hin; lia.
  - destruct Hpre; simpl in Hin; lia.
  - apply Hbody in Hin. unfold hex_digit in Hin. lia.
  - apply Hws2 in Hin. unfold white_space in Hin. lia.
Qed.

(** [int(s, 16)] returns [v] exactly on the strings of [int_literal]. *)
Lemma int16_spec s v : Py.int16 s = Ok v <-> int_literal s v.
Proof.
  unfold Py.int16, int_literal. split.
  - destruct (Py.PyLong_FromString _) as [z|] eqn:E; [|discriminate].
    intros H; inversion H; subst z. apply PyLong_FromString_sound in E.
    exists (Py.transform_decimal_and_space s). split; [|assumption].
    apply transform_without_question_mark.
    eapply literal_without_question_mark; eassumption.
  - intros (buffer & Himg & Hlit).
    rewrite (transform_image _ _ Himg).
    now rewrite (PyLong_FromString_complete _ _ Hlit).
Qed.

Lemma int16_raises s e : Py.int16 s = Raise e -> e = ValueError.
Proof.
  unfold Py.int16. destruct (Py.PyLong_FromString _); congruence.
Qed.

Lemma int_literal_unique s v v' : int_literal s v -> int_literal s v' -> v = v'.
Proof. rewrite <- !int16_spec. congruence. Qed.

(** ** [chr] and [unicode_symbol] *)

Lemma chr_code_point v : code_point v -> Py.chr v = Ok [v].
Proof.
  unfold code_point, Py.chr. intros H.
  assert ((v <? - 2 ^ 31) || (2 ^ 31 - 1 <? v) = false) as ->
    by (apply orb_false_intro; [apply Z.ltb_ge | apply Z.ltb_ge]; lia).
  assert ((v <? 0) || (1114111 <? v) = false) as ->
    by (apply orb_false_intro; [apply Z.ltb_ge | apply Z.ltb_ge]; lia).
  reflexivity.
Qed.

Lemma chr_inv v sym : Py.chr v = Ok sym -> code_point v /\ sym = [v].
Proof.
  unfold code_point, Py.chr.
  destruct ((v <? - 2 ^ 31) || (2 ^ 31 - 1 <? v)); [discriminate|].
  destruct ((v <? 0) || (1114111 <? v)) eqn:E; [discriminate|].
  intros H; inversion H. bools. split; [lia | reflexivity].
Qed.

Lemma unicode_symbol_ok s v :
  int_literal s v -> code_point v -> unicode_symbol s = Ok [v].
Proof.
  intros Hl Hv. unfold unicode_symbol. apply int16_spec in Hl. rewrite Hl.
  simpl. now apply chr_code_point.
Qed.

Lemma unicode_symbol_inv s sym :
  unicode_symbol s = Ok sym ->
  exists v, int_literal s v /\ code_point v /\ sym = [v].
Proof.
  unfold unicode_symbol. destruct (Py.int16 s) as [v|e] eqn:E; [|discriminate].
  simpl. intros H. apply chr_inv in H as [Hv ->].
  exists v. split; [now apply int16_spec | auto].
Qed.

(** What [int(s, 16)] takes besides plain digits, and what it refuses. *)
Example unicode_symbol_accepted :
  map unicode_symbol
    [lit " f120"; lit "0xf120"; lit "+F120"; lit "0X_f1_20"; [0xA0; 0x661]]
  = [Ok [0xF120]; Ok [0xF120]; Ok [0xF120]; Ok [0xF120]; Ok [1]].
Proof. reflexivity. Qed.

Example unicode_symbol_refused :
  map unicode_symbol
    [[]; lit "0x"; lit "f__1"; lit "f_"; lit "+ f"; lit "-1"; lit "110000";
     lit "ffffffffff"]
  = [Raise ValueError; Raise ValueError; Raise ValueError; Raise ValueError;
     Raise ValueError; Raise ValueError; Raise ValueError;
     Raise OverflowError].
Proof. reflexivity. Qed.

(** ** Hexadecimal numerals *)

Lemma hex_numeral_digit_part s : hex_numeral s -> digit_part s.
Proof.
  intros [Hne Hall]. induction Hall as [|d s Hd Hs IH]; [congruence|].
  destruct s as [|d' s'].
  - now constructor.
  - apply digit_next; [assumption|]. apply IH. discriminate.
Qed.

Lemma digits_of_hex s : Forall hex_digit s -> digits_of s = s.
Proof.
  induction 1 as [|d s Hd _ IH]; [reflexivity|].
  rewrite digits_of_digit by assumption. now f_equal.
Qed.

Lemma hex_numeral_literal s : hex_numeral s -> int_literal s (base16_value s).
Proof.
  intros Hs. exists s. split.
  - destruct Hs as [_ Hall].
    induction Hall as [|d s Hd _ IH]; constructor; [|assumption].
    constructor. unfold hex_digit in Hd. lia.
  - pose proof (literal_parts [] [] 1 [] s [] (Forall_nil _) sign_none
                  prefix_none (hex_numeral_digit_part s Hs) (Forall_nil _)) as H.
    simpl in H. rewrite app_nil_r in H.
    rewrite digits_of_hex in H by apply Hs.
    destruct (base16_value s); exact H.
Qed.

Lemma base16_value_bound s :
  Forall hex_digit s -> 0 <= base16_value s < 16 ^ Z.of_nat (length s).
Proof.
  induction 1 as [|d s Hd _ IH]; [simpl; lia|].
  cbn [length base16_value]. rewrite Nat2Z.inj_succ, Z.pow_succ_r by lia.
  pose proof (hex_digit_value_bound d Hd). nia.
Qed.

(** ** Computations *)

Lemma bind_ret_l {A B} (a : A) (f : A -> io B) : bind (ret a) f = f a.
Proof. unfold bind, ret. now destruct (f a). Qed.

Lemma bind_assoc {A B C} (m : io A) (f : A -> io B) (g : B -> io C) :
  bind (bind m f) g = bind m (fun a => bind (f a) g).
Proof.
  destruct m as [out [a|e]]; simpl; [|reflexivity].
  destruct (f a) as [out1 [b|e]]; simpl; [|reflexivity].
  destruct (g b) as [out2 r]. now rewrite app_assoc.
Qed.

Lemma bind_ok {A B} out (a : A) (f : A -> io B) :
  bind (out, Ok a) f = (out ++ fst (f a), snd (f a)).
Proof. simpl. now destruct (f a). Qed.

Lemma bind_raise {A B} out e (f : A -> io B) :
  bind (out, Raise e) f = (out, Raise e).
Proof. reflexivity. Qed.

Lemma for_each_app {A} (l1 l2 : list A) body :
  for_each (l1 ++ l2) body = (for_each l1 body ;; for_each l2 body).
Proof.
  induction l1 as [|x l1 IH]; cbn [for_each app].
  - now rewrite bind_ret_l.
  - now rewrite bind_assoc, IH.
Qed.

(** The lines of a loop come from its rounds. *)
Lemma for_each_lines {A} (l : list A) body line :
  In line (fst (for_each l body)) ->
  exists x, In x l /\ In line (fst (body x)).
Proof.
  induction l as [|x l IH]; simpl; [tauto|].
  destruct (body x) as [out [[]|e]] eqn:E; simpl.
  - destruct (for_each l body) as [out' r]. simpl in *.
    intros H. apply in_app_or in H as [H|H].
    + exists x. rewrite E. auto.
    + destruct (IH H) as (y & Hy & Hl). eauto.
  - intros H. exists x. rewrite E. auto.
Qed.

(** The f-string of the loop is the output line of the specification. *)
Lemma icon_line_spelled name s : icon_line name s = output_line name s.
Proof. reflexivity. Qed.

Lemma print_encodable line : encodable line -> print line = ([line], Ok tt).
Proof. unfold encodable, print. now intros ->. Qed.

Lemma print_unencodable line :
  ~ encodable line -> print line = ([], Raise UnicodeEncodeError).
Proof.
  unfold encodable, print. destruct (utf8_encodable line); congruence.
Qed.

Lemma name_round (s name : str) :
  (x <- lift (Ok s) ;; print (icon_line name x)) = print (output_line name s).
Proof.
  unfold lift. rewrite bind_ok, icon_line_spelled.
  now destruct (print (output_line name s)).
Qed.

(** The inner loop: one line for each name once the symbol is there, and
    no symbol is asked for when no name is left. *)
Lemma name_loop_ok (names : list str) (r : result str) s :
  r = Ok s ->
  Forall encodable (map (fun name => output_line name s) names) ->
  for_each names (fun name => x <- lift r ;; print (icon_line name x))
  = (map (fun name => output_line name s) names, Ok tt).
Proof.
  intros -> Henc. induction names as [|n names IH]; cbn [for_each map] in *;
    [reflexivity|].
  rewrite name_round, (print_encodable _ (Forall_inv Henc)).
  rewrite IH by exact (Forall_inv_tail Henc). reflexivity.
Qed.

(** A line that cannot be encoded ends the loop after the lines before
    it. *)
Lemma name_loop_unencodable (names : list str) (r : result str) s :
  r = Ok s ->
  ~ Forall encodable (map (fun name => output_line name s) names) ->
  exists out,
    for_each names (fun name => x <- lift r ;; print (icon_line name x))
    = (out, Raise UnicodeEncodeError).
Proof.
  intros -> Henc. induction names as [|n names IH]; cbn [for_each map] in *.
  - exfalso. apply Henc. constructor.
  - rewrite name_round.
    destruct (utf8_encodable (output_line n s)) eqn:E.
    + rewrite (print_encodable _ E).
      destruct IH as [out Hout].
      { intros H. apply Henc. now constructor. }
      rewrite Hout. eexists. reflexivity.
    + rewrite print_unencodable by (unfold encodable; congruence).
      eexists. reflexivity.
Qed.

Lemma name_loop_raise (names : list str) (r : result str) e :
  r = Raise e -> names <> [] ->
  for_each names (fun name => x <- lift r ;; print (icon_line name x))
  = ([], Raise e).
Proof. intros -> H. destruct names; [congruence|reflexivity]. Qed.

Lemma icon_names_false icon_name icon :
  icon_names icon_name icon false = Ok [icon_name].
Proof. reflexivity. Qed.

Lemma icon_names_true icon_name icon aliases :
  entry_aliases icon = Some aliases ->
  icon_names icon_name icon true = Ok (icon_name :: aliases).
Proof.
  unfold entry_aliases, icon_names, getitem_search_terms.
  destruct (icon_search icon) as [s|]; [|discriminate].
  destruct (search_terms s) as [[|l]|]; [| |discriminate];
    intros H; inversion H; reflexivity.
Qed.

Lemma icon_names_true_raise icon_name icon :
  entry_aliases icon = None ->
  exists key, icon_names icon_name icon true = Raise (KeyError key).
Proof.
  unfold entry_aliases, icon_names, getitem_search_terms.
  destruct (icon_search icon) as [s|]; [|eexists; reflexivity].
  destruct (search_terms s) as [[|l]|]; [discriminate|discriminate|].
  eexists; reflexivity.
Qed.

(** One round of the outer loop, when the names and the symbol are there. *)
Lemma print_icon_ok inc icon_name icon names s :
  icon_names icon_name icon inc = Ok names ->
  entry_symbol icon = Ok s ->
  Forall encodable (name_lines names s) ->
  print_icon inc (icon_name, icon) = (name_lines names s, Ok tt).
Proof.
  intros Hn Hs Henc. unfold print_icon. rewrite Hn. unfold lift at 1.
  rewrite bind_ok. unfold entry_symbol in Hs.
  rewrite (name_loop_ok _ _ s Hs Henc). reflexivity.
Qed.

Lemma print_icon_unencodable inc icon_name icon names s :
  icon_names icon_name icon inc = Ok names ->
  entry_symbol icon = Ok s ->
  ~ Forall encodable (name_lines names s) ->
  exists out,
    print_icon inc (icon_name, icon) = (out, Raise UnicodeEncodeError).
Proof.
  intros Hn Hs Henc. unfold print_icon. rewrite Hn. unfold lift at 1.
  rewrite bind_ok. unfold entry_symbol in Hs.
  destruct (name_loop_unencodable _ _ s Hs Henc) as [out Hout].
  rewrite Hout. eexists. reflexivity.
Qed.

Lemma print_icon_names_Icons entries inc :
  print_icon_names (Icons entries) inc = for_each entries (print_icon inc).
Proof.
  unfold print_icon_names. simpl items. unfold lift.
  rewrite bind_ok. simpl. now destruct (for_each entries (print_icon inc)).
Qed.

(** A symbol that is a surrogate decodes, and its line cannot be
    written: the run ends there, after the lines before it. *)
Example print_icon_names_surrogate :
  unicode_symbol (lit "d800") = Ok [0xD800]
  /\ print_icon_names
       (Icons [(lit "kitty", icon_500px);
               (lit "x", {| icon_unicode := Some (lit "d800");
                            icon_search := None |});
               (lit "y", icon_500px)]) false
     = ([output_line (lit "kitty") [0xF26E]], Raise UnicodeEncodeError).
Proof. split; reflexivity. Qed.

(** The run over a catalog, cut at one of its entries. *)
Lemma print_icon_names_entry inc before item after out lines :
  print_icon_names (Icons before) inc = (out, Ok tt) ->
  print_icon inc item = (lines, Ok tt) ->
  print_icon_names (Icons (before ++ item :: after)) inc
  = (out ++ lines ++ fst (print_icon_names (Icons after) inc),
     snd (print_icon_names (Icons after) inc)).
Proof.
  rewrite !print_icon_names_Icons. intros Hb Hi.
  rewrite for_each_app, Hb, bind_ok. simpl for_each.
  rewrite Hi, bind_ok. reflexivity.
Qed.

(** * The claims *)

(** ** Decoding a code point *)

(** C3: for every string [h] of four hexadecimal digits, the value of [h]
    in base 16 is a code point and [unicode_symbol h] returns the string
    of that one code point.  At ["f120"] this is the character U+F120. *)
Theorem unicode_symbol_four_digits (h : str) :
  length h = 4%nat -> Forall hex_digit h ->
  code_point (base16_value h) /\ unicode_symbol h = Ok [base16_value h].
Proof.
  intros Hlen Hhex.
  assert (code_point (base16_value h)) as Hv.
  { pose proof (base16_value_bound h Hhex) as Hb. rewrite Hlen in Hb.
    unfold code_point. change (16 ^ Z.of_nat 4) with 65536 in Hb. lia. }
  split; [assumption|].
  apply unicode_symbol_ok; [|assumption].
  apply hex_numeral_literal. split; [|assumption].
  intros ->. discriminate.
Qed.

Lemma unicode_symbol_f120 :
  length (lit "f120") = 4%nat /\ Forall hex_digit (lit "f120")
  /\ code_point 0xF120 /\ unicode_symbol (lit "f120") = Ok [0xF120].
Proof.
  assert (Forall hex_digit (lit "f120")) as H
    by (repeat constructor; unfold hex_digit; simpl; lia).
  split; [reflexivity|]. split; [exact H|].
  exact (unicode_symbol_four_digits (lit "f120") eq_refl H).
Defined.

(** C4, the claim as stated fails: ["f_120"] is no hexadecimal numeral,
    for its underscore, and [unicode_symbol] does not fail on it but
    returns the character U+F120. *)
Lemma unicode_symbol_underscore :
  ~ hex_numeral (lit "f_120") /\ unicode_symbol (lit "f_120") = Ok [0xF120].
Proof.
  split; [|reflexivity].
  intros [_ H]. rewrite Forall_forall in H.
  specialize (H 95). unfold hex_digit in H.
  assert (In 95 (lit "f_120")) as Hin by (simpl; auto).
  apply H in Hin. lia.
Qed.

(** C4, amended: [unicode_symbol hex] fails if and only if [hex] is not a
    string that base-16 integer parsing accepts ([int_literal]: digits
    with single underscores between them, after an optional sign and an
    optional prefix [0x], with white space around, other decimal digits
    and white space of Unicode standing for their ASCII ones) or the
    integer it denotes is no code point; otherwise it returns the
    character at that code point.  Every hexadecimal numeral is such a
    string and denotes its value in base 16. *)
Theorem unicode_symbol_raises_iff (hex : str) :
  ((exists e, unicode_symbol hex = Raise e)
   <-> ~ (exists v, int_literal hex v /\ code_point v))
  /\ (forall v, int_literal hex v -> code_point v ->
      unicode_symbol hex = Ok [v])
  /\ (hex_numeral hex -> int_literal hex (base16_value hex)).
Proof.
  split; [|split].
  - split.
    + intros [e He] (v & Hl & Hv).
      rewrite (unicode_symbol_ok hex v Hl Hv) in He. discriminate.
    + intros Hno. destruct (unicode_symbol hex) as [sym|e] eqn:E.
      * exfalso. apply Hno.
        apply unicode_symbol_inv in E as (v & Hl & Hv & _). eauto.
      * eauto.
  - apply unicode_symbol_ok.
  - apply hex_numeral_literal.
Qed.

Lemma unicode_symbol_raises_iff_sample :
  unicode_symbol (lit " +0x_F1_20 ") = Ok [0xF120]
  /\ (exists e, unicode_symbol (lit "f12g") = Raise e)
  /\ (exists e, unicode_symbol (lit "110000") = Raise e).
Proof.
  split; [|split].
  - apply (proj1 (proj2 (unicode_symbol_raises_iff (lit " +0x_F1_20 ")))).
    + apply int16_spec. reflexivity.
    + unfold code_point. lia.
  - apply (proj1 (unicode_symbol_raises_iff (lit "f12g"))).
    intros (v & Hl & _). apply int16_spec in Hl. discriminate.
  - apply (proj1 (unicode_symbol_raises_iff (lit "110000"))).
    intros (v & Hl & Hv). apply int16_spec in Hl.
    assert (v = 1114112) as -> by (vm_compute in Hl; congruence).
    unfold code_point in Hv. lia.
Defined.

(** ** The lines of the catalog *)

Lemma name_lines_all_nonempty icon_name aliases s :
  icon_name <> [] -> Forall (fun alias => alias <> []) aliases ->
  name_lines (icon_name :: aliases) s = line_per_name icon_name aliases s.
Proof.
  intros Hn Ha. unfold name_lines, line_per_name.
  assert (forall l : list str, Forall (fun x => x <> []) l ->
            filter nonempty l = l) as Hf.
  { induction 1 as [|x l Hx _ IH]; [reflexivity|].
    simpl. destruct x; [congruence|]. simpl. now f_equal. }
  rewrite Hf by (constructor; assumption). reflexivity.
Qed.

(** C1, the claim as stated fails: the entry [500px] with the search
    terms [px] and the empty string gets, with aliases included, the
    line of [500px] and the line of [px], and not one line for each of
    its two aliases. *)
Lemma print_icon_names_empty_alias :
  print_icon_names (Icons [(lit "500px", icon_empty_alias)]) true
  = ([output_line (lit "500px") [0xF26E]; output_line (lit "px") [0xF26E]],
     Ok tt)
  /\ fst (print_icon_names (Icons [(lit "500px", icon_empty_alias)]) true)
     <> line_per_name (lit "500px") [lit "px"; []] [0xF26E].
Proof.
  split; [reflexivity|]. vm_compute. discriminate.
Qed.

(** C1, amended: for every catalog and every entry of it that the run
    reaches, whose unicode decodes and, when aliases are included, whose
    search terms can be read, and whose lines UTF-8 can encode (no
    surrogate in a name or in the symbol): [print_icon_names] prints for
    the entry, after the lines of the entries before it, one line
    ["(?i)<name>" = "<symbol>"] for each name that is not the empty
    string, the symbol being [unicode_symbol] of the entry's unicode;
    the names are the primary name alone without aliases, and the
    primary name followed by the aliases in their order with them.  When
    no name is empty these are one line for the primary name and one
    for each alias. *)
Theorem print_icon_names_entry_lines
    (inc : bool) (before after : list (str * icon_dict))
    (icon_name : str) (icon : icon_dict) (aliases : list str)
    (s : str) (printed : list str) :
  print_icon_names (Icons before) inc = (printed, Ok tt) ->
  entry_symbol icon = Ok s ->
  (inc = true -> entry_aliases icon = Some aliases) ->
  let names := icon_name :: (if inc then aliases else []) in
  Forall encodable (name_lines names s) ->
  print_icon_names (Icons (before ++ (icon_name, icon) :: after)) inc
  = (printed ++ name_lines names s
       ++ fst (print_icon_names (Icons after) inc),
     snd (print_icon_names (Icons after) inc))
  /\ (icon_name <> [] -> Forall (fun alias => alias <> []) aliases ->
      name_lines names s
      = line_per_name icon_name (if inc then aliases else []) s).
Proof.
  intros Hb Hs Ha names Henc. split.
  - apply print_icon_names_entry; [assumption|].
    apply print_icon_ok; [|assumption|assumption].
    subst names. destruct inc.
    + apply icon_names_true. auto.
    + apply icon_names_false.
  - intros Hn Hal. apply name_lines_all_nonempty; [assumption|].
    destruct inc; [assumption|constructor].
Qed.

Lemma print_icon_names_entry_lines_500px :
  print_icon_names
    (Icons [(lit "kitty", icon_null_terms); (lit "500px", icon_500px);
            (lit "x", icon_no_terms)]) false
  = ([output_line (lit "kitty") [0xF26E]; output_line (lit "500px") [0xF26E];
      output_line (lit "x") [0xF26E]], Ok tt)
  /\ print_icon_names
       (Icons [(lit "kitty", icon_null_terms); (lit "500px", icon_500px);
               (lit "x", icon_no_terms)]) true
     = ([output_line (lit "kitty") [0xF26E];
         output_line (lit "500px") [0xF26E];
         output_line (lit "px") [0xF26E]], Raise (KeyError (lit "terms"))).
Proof.
  split.
  - refine (proj1 (print_icon_names_entry_lines false
                     [(lit "kitty", icon_null_terms)]
                     [(lit "x", icon_no_terms)]
                     (lit "500px") icon_500px [lit "px"] [0xF26E]
                     [output_line (lit "kitty") [0xF26E]]
                     eq_refl eq_refl (fun _ => eq_refl) _)).
    cbv. repeat constructor.
  - refine (proj1 (print_icon_names_entry_lines true
                     [(lit "kitty", icon_null_terms)]
                     [(lit "x", icon_no_terms)]
                     (lit "500px") icon_500px [lit "px"] [0xF26E]
                     [output_line (lit "kitty") [0xF26E]]
                     eq_refl eq_refl (fun _ => eq_refl) _)).
    cbv. repeat constructor.
Defined.

(** C6, the claim as stated fails: with aliases included, an entry whose
    aliases are absent, for want of the key [search] or of the key
    [terms] under it, prints nothing and ends the run with a
    [KeyError]. *)
Lemma print_icon_names_aliases_absent :
  print_icon_names (Icons [(lit "500px", icon_no_search)]) true
  = ([], Raise (KeyError (lit "search")))
  /\ print_icon_names (Icons [(lit "500px", icon_no_terms)]) true
     = ([], Raise (KeyError (lit "terms"))).
Proof. split; reflexivity. Qed.

(** C6, amended: for every catalog entry whose search terms are null,
    [print_icon_names] with aliases included takes the aliases for the
    empty list: when the run reaches the entry, its unicode decodes and
    UTF-8 can encode the line of its primary name (no surrogate in the
    name or in the symbol), it prints exactly that line for it (no line
    when the name is empty) and goes on to the next entry. *)
Theorem print_icon_names_null_terms
    (before after : list (str * icon_dict))
    (icon_name : str) (icon : icon_dict) (search : search_dict)
    (s : str) (printed : list str) :
  icon_search icon = Some search ->
  search_terms search = Some TermsNone ->
  print_icon_names (Icons before) true = (printed, Ok tt) ->
  entry_symbol icon = Ok s ->
  Forall encodable (name_lines [icon_name] s) ->
  print_icon_names (Icons (before ++ (icon_name, icon) :: after)) true
  = (printed ++ name_lines [icon_name] s
       ++ fst (print_icon_names (Icons after) true),
     snd (print_icon_names (Icons after) true))
  /\ (icon_name <> [] ->
      name_lines [icon_name] s = [output_line icon_name s]).
Proof.
  intros Hsearch Hterms Hb Hs Henc. split.
  - apply print_icon_names_entry; [assumption|].
    apply print_icon_ok; [|assumption|assumption].
    apply icon_names_true. unfold entry_aliases.
    now rewrite Hsearch, Hterms.
  - intros Hn. destruct icon_name; [congruence|reflexivity].
Qed.

Lemma print_icon_names_null_terms_500px :
  print_icon_names
    (Icons [(lit "500px", icon_500px); (lit "kitty", icon_null_terms);
            (lit "x", icon_500px)]) true
  = ([output_line (lit "500px") [0xF26E]; output_line (lit "px") [0xF26E];
      output_line (lit "kitty") [0xF26E];
      output_line (lit "x") [0xF26E]; output_line (lit "px") [0xF26E]],
     Ok tt).
Proof.
  refine (proj1 (print_icon_names_null_terms
                   [(lit "500px", icon_500px)] [(lit "x", icon_500px)]
                   (lit "kitty") icon_null_terms
                   {| search_terms := Some TermsNone |} [0xF26E]
                   [output_line (lit "500px") [0xF26E];
                    output_line (lit "px") [0xF26E]]
                   eq_refl eq_refl eq_refl eq_refl _)).
  cbv. repeat constructor.
Defined.

Lemma icon_line_length name s :
  length (icon_line name s) = (11 + length name + length s)%nat.
Proof.
  unfold icon_line. rewrite !length_app. simpl. lia.
Qed.

Lemma filter_nonempty_In name names :
  In name (filter nonempty names) -> name <> [].
Proof.
  intros H. apply filter_In in H as [_ H]. now destruct name.
Qed.

(** The lines of one round of the outer loop. *)
Lemma print_icon_lines inc item line :
  In line (fst (print_icon inc item)) ->
  exists name c, name <> [] /\ line = icon_line name [c].
Proof.
  destruct item as [icon_name icon]. unfold print_icon.
  destruct (icon_names icon_name icon inc) as [names|e]; [|simpl; tauto].
  unfold lift at 1. rewrite bind_ok. simpl app. intros H.
  apply for_each_lines in H as (name & Hname & H).
  apply filter_nonempty_In in Hname.
  destruct (rbind (getitem_unicode icon) unicode_symbol) as [s|e] eqn:E;
    [|simpl in H; tauto].
  unfold print in H.
  destruct (utf8_encodable (icon_line name s)); [|simpl in H; tauto].
  destruct H as [<-|[]].
  destruct (getitem_unicode icon) as [u|]; [|discriminate]. simpl in E.
  apply unicode_symbol_inv in E as (v & _ & _ & ->).
  eauto.
Qed.

(** C7: whatever the document and with or without aliases, every line
    [print_icon_names] prints, also in a run that fails later, is the
    line of a name that is not the empty string, with a symbol of one
    character; none is the line of the empty name. *)
Theorem print_icon_names_no_empty_name (icons_dict : document) (inc : bool) :
  Forall (fun line =>
            (exists name c, name <> [] /\ line = icon_line name [c])
            /\ (forall c, line <> icon_line [] [c]))
         (fst (print_icon_names icons_dict inc)).
Proof.
  apply Forall_forall. intros line Hin.
  assert (exists name c, name <> [] /\ line = icon_line name [c])
    as (name & c & Hname & ->).
  { destruct icons_dict as [entries|]; [|simpl in Hin; tauto].
    rewrite print_icon_names_Icons in Hin.
    apply for_each_lines in Hin as (item & _ & Hin).
    eapply print_icon_lines; eassumption. }
  split; [eauto|].
  intros c' Heq. apply (f_equal (@length Z)) in Heq.
  rewrite !icon_line_length in Heq. destruct name; [congruence|].
  simpl in Heq. lia.
Qed.

(** ** Aliases left out *)

Lemma print_icon_false_without_search item :
  print_icon false (without_search item) = print_icon false item.
Proof. destruct item as [icon_name icon]. reflexivity. Qed.

Lemma for_each_map {A B} (f : A -> B) (l : list A) body :
  for_each (map f l) body = for_each l (fun x => body (f x)).
Proof.
  induction l as [|x l IH]; simpl; [reflexivity|]. now rewrite IH.
Qed.

Lemma for_each_ext {A} (l : list A) body body' :
  (forall x, body x = body' x) -> for_each l body = for_each l body'.
Proof.
  intros H. induction l as [|x l IH]; simpl; [reflexivity|].
  now rewrite H, IH.
Qed.

Lemma print_icon_primary item s :
  fst item <> [] -> entry_symbol (snd item) = Ok s ->
  encodable (output_line (fst item) s) ->
  print_icon false item = ([output_line (fst item) s], Ok tt).
Proof.
  destruct item as [icon_name icon]. cbn [fst snd]. intros Hn Hs Henc.
  assert (name_lines [icon_name] s = [output_line icon_name s]) as Hl
    by (destruct icon_name; [congruence|reflexivity]).
  rewrite <- Hl.
  apply (print_icon_ok false icon_name icon [icon_name] s
           (icon_names_false _ _) Hs).
  rewrite Hl. now constructor.
Qed.

(** C10, the claim as stated fails: in a catalog whose entries have no
    key [search], an entry with a unicode that is no numeral ends the
    run without aliases with [ValueError], and an entry with the empty
    name gets no line. *)
Lemma print_icon_names_unread_but_failing :
  icon_search icon_bad_unicode = None
  /\ print_icon_names
       (Icons [(lit "500px", icon_no_search); (lit "bad", icon_bad_unicode)])
       false
     = ([output_line (lit "500px") [0xF26E]], Raise ValueError)
  /\ print_icon_names
       (Icons [(lit "500px", icon_no_search); ([], icon_no_search)]) false
     = ([output_line (lit "500px") [0xF26E]], Ok tt).
Proof. repeat split. Qed.

(** C10, amended: without aliases [print_icon_names] never reads the
    search terms of an entry: it does on a catalog what it does on the
    same catalog with the key [search] taken out of every entry.  So for
    every catalog whose entries lack the key [search] and have a name
    that is not empty, a unicode that decodes and a line that UTF-8 can
    encode, the run without aliases succeeds and prints the line of the
    primary name of each entry, in order. *)
Theorem print_icon_names_aliases_unread (entries : list (str * icon_dict)) :
  print_icon_names (Icons (map without_search entries)) false
  = print_icon_names (Icons entries) false
  /\ ((forall item, In item entries ->
         fst item <> []
         /\ exists s, entry_symbol (snd item) = Ok s
                      /\ encodable (output_line (fst item) s)) ->
      exists lines,
        print_icon_names (Icons (map without_search entries)) false
        = (lines, Ok tt)
        /\ Forall2 (fun item line =>
                      exists s, entry_symbol (snd item) = Ok s
                                /\ line = output_line (fst item) s)
                   entries lines).
Proof.
  assert (print_icon_names (Icons (map without_search entries)) false
          = print_icon_names (Icons entries) false) as Hsame.
  { rewrite !print_icon_names_Icons, for_each_map.
    apply for_each_ext, print_icon_false_without_search. }
  split; [exact Hsame|].
  intros Hwf. rewrite Hsame, print_icon_names_Icons.
  induction entries as [|item entries IH].
  - exists []. split; [reflexivity|constructor].
  - destruct (Hwf item (or_introl eq_refl)) as (Hn & s & Hs & Henc).
    destruct IH as (lines & Hrun & Hlines).
    { rewrite !print_icon_names_Icons, for_each_map.
      apply for_each_ext, print_icon_false_without_search. }
    { intros x Hx. apply Hwf. now right. }
    exists (output_line (fst item) s :: lines). split.
    + cbn [for_each].
      rewrite (print_icon_primary item s Hn Hs Henc), bind_ok.
      now rewrite Hrun.
    + constructor; eauto.
Qed.

Lemma print_icon_names_aliases_unread_500px :
  exists lines,
    print_icon_names
      (Icons (map without_search
                [(lit "500px", icon_500px); (lit "kitty", icon_no_search)]))
      false = (lines, Ok tt)
    /\ Forall2 (fun item line =>
                  exists s, entry_symbol (snd item) = Ok s
                            /\ line = output_line (fst item) s)
               [(lit "500px", icon_500px); (lit "kitty", icon_no_search)]
               lines.
Proof.
  apply (proj2 (print_icon_names_aliases_unread
                  [(lit "500px", icon_500px);
                   (lit "kitty", icon_no_search)])).
  intros item [<-|[<-|[]]]; (split; [discriminate|]);
    exists [0xF26E]; split; reflexivity.
Defined.

(** ** The run *)

Lemma print_custom_icons_lines : print_custom_icons = (custom_lines, Ok tt).
Proof. reflexivity. Qed.

Lemma main_not_loaded w uri version inc e :
  rbind (requests_get w uri) (fun r => yaml_full_load w (text r)) = Raise e ->
  main w uri version inc = ([], Raise e).
Proof. unfold main. now intros ->. Qed.

Lemma main_loaded w uri version inc r icons_dict :
  requests_get w uri = Ok r ->
  yaml_full_load w (text r) = Ok icons_dict ->
  main w uri version inc
  = (lit "[icons]" :: custom_lines ++ fst (print_icon_names icons_dict inc),
     snd (print_icon_names icons_dict inc)).
Proof.
  intros Hget Hload. unfold main. rewrite Hget. simpl rbind. rewrite Hload.
  unfold lift. rewrite bind_ok.
  change (print (lit "[icons]")) with ([lit "[icons]"], Ok tt).
  rewrite bind_ok, print_custom_icons_lines, bind_ok. reflexivity.
Qed.

(** The three ways a run can go. *)
Lemma main_cases w uri version inc :
  (exists e, requests_get w uri = Raise e
             /\ main w uri version inc = ([], Raise e))
  \/ (exists r e, requests_get w uri = Ok r
                  /\ yaml_full_load w (text r) = Raise e
                  /\ main w uri version inc = ([], Raise e))
  \/ (exists r icons_dict,
        requests_get w uri = Ok r
        /\ yaml_full_load w (text r) = Ok icons_dict
        /\ main w uri version inc
           = (lit "[icons]" :: custom_lines
                ++ fst (print_icon_names icons_dict inc),
              snd (print_icon_names icons_dict inc))).
Proof.
  destruct (requests_get w uri) as [r|e] eqn:Hget.
  - destruct (yaml_full_load w (text r)) as [d|e] eqn:Hload.
    + right; right. exists r, d.
      split; [reflexivity|]. split; [assumption|].
      now apply (main_loaded w uri version inc r d).
    + right; left. exists r, e.
      split; [reflexivity|]. split; [assumption|].
      apply main_not_loaded. rewrite Hget. exact Hload.
  - left. exists e. split; [reflexivity|].
    apply main_not_loaded. now rewrite Hget.
Qed.

(** A body that loads as no dictionary: the header and the custom lines
    are printed before the run fails. *)
Example main_no_mapping :
  main (world_of 200 NoMapping) (URI (lit "master")) (lit "master") false
  = (lit "[icons]" :: custom_lines, Raise AttributeError).
Proof. reflexivity. Qed.

(** C2: in every run that succeeds the first line printed is [[icons]],
    the next two are the lines ["(?i)alacritty" = "<U+F120>"] and
    ["(?i)kitty" = "<U+F120>"], in this order, and the lines of the
    catalog come after them. *)
Theorem main_header_then_custom_lines
    (w : world) (uri version : str) (inc : bool) (out : list str) :
  main w uri version inc = (out, Ok tt) ->
  exists r icons_dict catalog_lines,
    requests_get w uri = Ok r
    /\ yaml_full_load w (text r) = Ok icons_dict
    /\ print_icon_names icons_dict inc = (catalog_lines, Ok tt)
    /\ out = lit "[icons]"
             :: ([34] ++ lit "(?i)alacritty" ++ [34] ++ lit " = "
                 ++ [34; 0xF120; 34])
             :: ([34] ++ lit "(?i)kitty" ++ [34] ++ lit " = "
                 ++ [34; 0xF120; 34])
             :: catalog_lines.
Proof.
  intros Hrun.
  destruct (main_cases w uri version inc)
    as [(e & _ & H) | [(r & e & _ & _ & H) | (r & d & Hget & Hload & H)]];
    rewrite H in Hrun; try discriminate.
  inversion Hrun as [[Hout Hres]].
  exists r, d, (fst (print_icon_names d inc)).
  split; [assumption|]. split; [assumption|].
  destruct (print_icon_names d inc) as [lines res]. simpl in *.
  destruct res as [[]|]; [|discriminate]. split; reflexivity.
Qed.

Lemma main_header_then_custom_lines_500px :
  exists r icons_dict catalog_lines,
    requests_get (world_of 200 (Icons [(lit "500px", icon_500px)]))
      (URI (lit "master")) = Ok r
    /\ yaml_full_load (world_of 200 (Icons [(lit "500px", icon_500px)]))
         (text r) = Ok icons_dict
    /\ print_icon_names icons_dict false = (catalog_lines, Ok tt)
    /\ [ lit "[icons]";
         [34] ++ lit "(?i)alacritty" ++ [34] ++ lit " = " ++ [34; 0xF120; 34];
         [34] ++ lit "(?i)kitty" ++ [34] ++ lit " = " ++ [34; 0xF120; 34];
         [34] ++ lit "(?i)500px" ++ [34] ++ lit " = " ++ [34; 0xF26E; 34] ]
       = lit "[icons]"
           :: ([34] ++ lit "(?i)alacritty" ++ [34] ++ lit " = "
               ++ [34; 0xF120; 34])
           :: ([34] ++ lit "(?i)kitty" ++ [34] ++ lit " = "
               ++ [34; 0xF120; 34])
           :: catalog_lines.
Proof.
  exact (main_header_then_custom_lines
           (world_of 200 (Icons [(lit "500px", icon_500px)]))
           (URI (lit "master")) (lit "master") false _ eq_refl).
Defined.

(** C9: when the request raises, or the text of the response does not
    load, the run prints nothing at all; a run that fails after printing
    something has fetched and loaded its document, printed the header
    and the two custom lines, and failed inside [print_icon_names]. *)
Theorem main_prints_nothing_without_document
    (w : world) (uri version : str) (inc : bool) :
  (forall e, requests_get w uri = Raise e ->
     main w uri version inc = ([], Raise e))
  /\ (forall r e, requests_get w uri = Ok r ->
        yaml_full_load w (text r) = Raise e ->
        main w uri version inc = ([], Raise e))
  /\ (forall out e, main w uri version inc = (out, Raise e) -> out <> [] ->
        exists r icons_dict lines,
          requests_get w uri = Ok r
          /\ yaml_full_load w (text r) = Ok icons_dict
          /\ print_icon_names icons_dict inc = (lines, Raise e)
          /\ out = lit "[icons]" :: custom_lines ++ lines).
Proof.
  split; [|split].
  - intros e Hget. apply main_not_loaded. now rewrite Hget.
  - intros r e Hget Hload. apply main_not_loaded. now rewrite Hget.
  - intros out e Hrun Hout.
    destruct (main_cases w uri version inc)
      as [(e' & _ & H) | [(r & e' & _ & _ & H) | (r & d & Hget & Hload & H)]];
      rewrite H in Hrun; inversion Hrun; subst; try congruence.
    exists r, d, (fst (print_icon_names d inc)).
    split; [assumption|]. split; [assumption|].
    split; [|reflexivity].
    destruct (print_icon_names d inc) as [lines res]. simpl in *. congruence.
Qed.

Lemma main_prints_nothing_without_document_samples :
  main world_offline (URI (lit "master")) (lit "master") false
  = ([], Raise RequestException)
  /\ main world_garbled (URI (lit "master")) (lit "master") false
     = ([], Raise YAMLError).
Proof.
  split.
  - exact (proj1 (main_prints_nothing_without_document world_offline
                    (URI (lit "master")) (lit "master") false)
             RequestException eq_refl).
  - exact (proj1 (proj2 (main_prints_nothing_without_document world_garbled
                           (URI (lit "master")) (lit "master") false))
             {| status_code := 200; text := lit "{" |} YAMLError
             eq_refl eq_refl).
Defined.

(** C5, the claim as stated fails: the request is answered with the
    status 404 and a body that loads as the empty dictionary, and the
    run prints the header and the custom lines and ends with the exit
    status 0. *)
Lemma script_status_404_succeeds :
  requests_get world_404 (URI (lit "master")) = Ok response_404
  /\ success_status (status_code response_404) = false
  /\ script world_404 {| given_revision := None;
                          given_include_aliases := false |}
     = (lit "[icons]" :: custom_lines, Ok tt)
  /\ exit_status
       (snd (script world_404 {| given_revision := None;
                                 given_include_aliases := false |})) = 0.
Proof. repeat split. Qed.

(** C5, amended: for every run in which the network request completes,
    whatever HTTP status it returns, the status is not read and the body
    is loaded as the catalog: the run does what any run does that
    receives the same body, and it ends with a non-zero exit status
    exactly when the body does not load or printing the loaded document
    fails. *)
Theorem main_status_unread
    (w : world) (uri version : str) (inc : bool) (r : response) :
  requests_get w uri = Ok r ->
  (forall w' r',
     requests_get w' uri = Ok r' -> text r' = text r ->
     yaml_full_load w' (text r) = yaml_full_load w (text r) ->
     main w' uri version inc = main w uri version inc)
  /\ (exit_status (snd (main w uri version inc)) <> 0
      <-> (exists e, yaml_full_load w (text r) = Raise e)
          \/ (exists icons_dict e,
                yaml_full_load w (text r) = Ok icons_dict
                /\ snd (print_icon_names icons_dict inc) = Raise e)).
Proof.
  intros Hget. split.
  - intros w' r' Hget' Htext Hload. unfold main.
    now rewrite Hget, Hget'; simpl rbind; rewrite Htext, Hload.
  - destruct (yaml_full_load w (text r)) as [d|e] eqn:Hload.
    + rewrite (main_loaded w uri version inc r d Hget Hload). cbn [snd].
      split.
      * intros Hexit. right. exists d.
        destruct (snd (print_icon_names d inc)) as [[]|e];
          [simpl in Hexit; congruence | eauto].
      * intros [[e He] | (d' & e & Hd & He)]; [discriminate|].
        inversion Hd; subst d'. rewrite He. simpl. lia.
    + rewrite (main_not_loaded w uri version inc e)
        by (rewrite Hget; exact Hload).
      split; [eauto | simpl; lia].
Qed.

Lemma main_status_unread_sample :
  main (world_of 404 (Icons [(lit "500px", icon_500px)]))
       (URI (lit "master")) (lit "master") false
  = main (world_of 200 (Icons [(lit "500px", icon_500px)]))
         (URI (lit "master")) (lit "master") false.
Proof.
  exact (proj1 (main_status_unread
                  (world_of 200 (Icons [(lit "500px", icon_500px)]))
                  (URI (lit "master")) (lit "master") false _ eq_refl)
           (world_of 404 (Icons [(lit "500px", icon_500px)]))
           _ eq_refl eq_refl eq_refl).
Defined.

(** C8: the URI the script fetches is the fixed text with the revision
    put in, unchanged, between [/FortAwesome/Font-Awesome/] and
    [/metadata/icons.yml]; the revision is the value given to
    [--revision], and [master] when none is given; and the run asks the
    network for nothing else. *)
Theorem script_fetch_uri (w : world) (r : str) (inc : bool) :
  URI r = lit "https://raw.githubusercontent.com/FortAwesome/Font-Awesome/"
          ++ r ++ lit "/metadata/icons.yml"
  /\ script w {| given_revision := Some r; given_include_aliases := inc |}
     = main w (URI r) r inc
  /\ script w {| given_revision := None; given_include_aliases := inc |}
     = main w (URI (lit "master")) (lit "master") inc
  /\ (forall w',
        requests_get w' (URI r) = requests_get w (URI r) ->
        (forall body, yaml_full_load w' body = yaml_full_load w body) ->
        script w' {| given_revision := Some r; given_include_aliases := inc |}
        = script w {| given_revision := Some r;
                      given_include_aliases := inc |}).
Proof.
  split; [reflexivity|]. split; [reflexivity|]. split; [reflexivity|].
  intros w' Hget Hload. unfold script, main. cbn [parse_args revision
    include_aliases given_revision given_include_aliases].
  rewrite Hget. destruct (requests_get w (URI r)) as [resp|e];
    [|reflexivity].
  simpl rbind. now rewrite Hload.
Qed.

Lemma script_fetch_uri_v6 :
  URI (lit "v6")
  = lit "https://raw.githubusercontent.com/FortAwesome/Font-Awesome/v6/metadata/icons.yml"
  /\ script world_404 {| given_revision := None;
                          given_include_aliases := true |}
     = main world_404
         (lit "https://raw.githubusercontent.com/FortAwesome/Font-Awesome/master/metadata/icons.yml")
         (lit "master") true.
Proof.
  split.
  - exact (proj1 (script_fetch_uri world_404 (lit "v6") true)).
  - exact (proj1 (proj2 (proj2 (script_fetch_uri world_404 (lit "v6") true)))).
Defined.

(** * Further properties *)

(** ** Spellings of a code point *)

Lemma unicode_symbol_hex_numeral h :
  hex_numeral h -> unicode_symbol h = Py.chr (base16_value h).
Proof.
  intros Hh. unfold unicode_symbol.
  apply hex_numeral_literal, int16_spec in Hh. now rewrite Hh.
Qed.

Lemma ascii_image_same s :
  Forall (fun c => c < 127) s -> Forall2 ascii_image s s.
Proof.
  induction 1 as [|c s Hc _ IH]; constructor; [now constructor | assumption].
Qed.

(** A numeral with white space, a sign and a prefix around it. *)
Lemma int16_dressed ws1 sg sgn pre h ws2 :
  Forall white_space ws1 -> sign_part sg sgn -> prefix_part pre ->
  hex_numeral h -> Forall white_space ws2 ->
  Py.int16 (ws1 ++ sg ++ pre ++ h ++ ws2) = Ok (sgn * base16_value h).
Proof.
  intros Hws1 Hsg Hpre Hh Hws2. apply int16_spec.
  exists (ws1 ++ sg ++ pre ++ h ++ ws2). split.
  - apply ascii_image_same.
    repeat (apply Forall_app; split).
    + eapply Forall_impl; [|exact Hws1]. unfold white_space. intros; lia.
    + destruct Hsg; repeat constructor; lia.
    + destruct Hpre as [|x [-> | ->]|x [-> | ->]]; repeat constructor; lia.
    + eapply Forall_impl; [|exact (proj2 Hh)]. unfold hex_digit. intros; lia.
    + eapply Forall_impl; [|exact Hws2]. unfold white_space. intros; lia.
  - rewrite <- (digits_of_hex h (proj2 Hh)) at 2.
    constructor; auto using hex_numeral_digit_part.
Qed.

(** X1: on a hexadecimal numeral [unicode_symbol] depends on the value
    alone: it returns the character up to 0x10FFFF, raises [ValueError]
    from there up to the largest C [int], and [OverflowError] beyond. *)
Theorem unicode_symbol_numeral_ranges (h : str) :
  hex_numeral h ->
  unicode_symbol h
  = if base16_value h <=? 0x10FFFF then Ok [base16_value h]
    else if base16_value h <=? 2 ^ 31 - 1 then Raise ValueError
    else Raise OverflowError.
Proof.
  intros Hh. rewrite (unicode_symbol_hex_numeral h Hh).
  pose proof (base16_value_bound h (proj2 Hh)) as [Hv _].
  unfold Py.chr.
  destruct (base16_value h <=? 1114111) eqn:E1;
    destruct (base16_value h <=? 2 ^ 31 - 1) eqn:E2; bools;
    repeat match goal with
    | |- context [if ?b then _ else _] =>
        let E := fresh "E" in destruct b eqn:E; bools
    end; try reflexivity; lia.
Qed.

Lemma unicode_symbol_numeral_ranges_samples :
  unicode_symbol (lit "10FFFF") = Ok [0x10FFFF]
  /\ unicode_symbol (lit "110000") = Raise ValueError
  /\ unicode_symbol (lit "7fffffff") = Raise ValueError
  /\ unicode_symbol (lit "80000000") = Raise OverflowError.
Proof.
  split; [|split; [|split]].
  - apply (unicode_symbol_numeral_ranges (lit "10FFFF")). literal_numeral.
  - apply (unicode_symbol_numeral_ranges (lit "110000")). literal_numeral.
  - apply (unicode_symbol_numeral_ranges (lit "7fffffff")). literal_numeral.
  - apply (unicode_symbol_numeral_ranges (lit "80000000")). literal_numeral.
Defined.

(** X2: whatever string it is given, [unicode_symbol] either returns a
    string of exactly one code point, between 0 and 0x10FFFF, or raises
    [ValueError] or [OverflowError], and nothing else. *)
Theorem unicode_symbol_outcomes (hex_code : str) :
  (exists v, code_point v /\ unicode_symbol hex_code = Ok [v])
  \/ unicode_symbol hex_code = Raise ValueError
  \/ unicode_symbol hex_code = Raise OverflowError.
Proof.
  unfold unicode_symbol. destruct (Py.int16 hex_code) as [v|e] eqn:E.
  - simpl. destruct (Py.chr v) as [sym|e] eqn:Ec.
    + left. apply chr_inv in Ec as [Hv ->]. eauto.
    + right. unfold Py.chr in Ec.
      destruct ((v <? - 2 ^ 31) || (2 ^ 31 - 1 <? v));
        [inversion Ec; auto|].
      destruct ((v <? 0) || (1114111 <? v)); inversion Ec; auto.
  - right; left. simpl. apply int16_raises in E. now subst e.
Qed.

Lemma ascii_upper_hex_digit d :
  hex_digit d ->
  hex_digit (ascii_upper d)
  /\ hex_digit_value (ascii_upper d) = hex_digit_value d.
Proof.
  unfold hex_digit, ascii_upper, hex_digit_value. intros H.
  split_ifs; bools; lia.
Qed.

Lemma base16_value_upper h :
  Forall hex_digit h -> base16_value (map ascii_upper h) = base16_value h.
Proof.
  induction 1 as [|d h Hd _ IH]; [reflexivity|].
  cbn [map base16_value]. rewrite length_map, IH.
  now rewrite (proj2 (ascii_upper_hex_digit d Hd)).
Qed.

(** X3: the case of the letters does not matter: a hexadecimal numeral
    and the same numeral in capitals give the same outcome. *)
Theorem unicode_symbol_upper (h : str) :
  hex_numeral h -> unicode_symbol (map ascii_upper h) = unicode_symbol h.
Proof.
  intros [Hne Hall].
  assert (hex_numeral (map ascii_upper h)) as Hup.
  { split.
    - intros E. apply map_eq_nil in E. contradiction.
    - apply Forall_map. eapply Forall_impl; [|exact Hall].
      intros d Hd. apply ascii_upper_hex_digit, Hd. }
  rewrite (unicode_symbol_hex_numeral _ Hup).
  rewrite (unicode_symbol_hex_numeral h (conj Hne Hall)).
  now rewrite base16_value_upper.
Qed.

Lemma unicode_symbol_upper_f26e :
  unicode_symbol (lit "F26E") = unicode_symbol (lit "f26e").
Proof.
  apply (unicode_symbol_upper (lit "f26e")). literal_numeral.
Defined.

(** X4: white space around a hexadecimal numeral, a plus sign before it
    and the prefix [0x] or [0X], with or without an underscore after it,
    change nothing: the outcome is that of the bare numeral. *)
Theorem unicode_symbol_dressed (ws1 sg pre h ws2 : str) :
  Forall white_space ws1 -> sign_part sg 1 -> prefix_part pre ->
  hex_numeral h -> Forall white_space ws2 ->
  unicode_symbol (ws1 ++ sg ++ pre ++ h ++ ws2) = unicode_symbol h.
Proof.
  intros Hws1 Hsg Hpre Hh Hws2.
  rewrite (unicode_symbol_hex_numeral h Hh). unfold unicode_symbol.
  rewrite (int16_dressed ws1 sg 1 pre h ws2) by assumption.
  simpl rbind. f_equal. destruct (base16_value h); reflexivity.
Qed.

Lemma unicode_symbol_dressed_f120 :
  unicode_symbol (lit " +0xf120" ++ [10]) = unicode_symbol (lit "f120").
Proof.
  apply (unicode_symbol_dressed [32] [43] [48; 120] (lit "f120") [10]).
  - repeat constructor; unfold white_space; lia.
  - constructor.
  - constructor. now left.
  - literal_numeral.
  - repeat constructor; unfold white_space; lia.
Defined.

Lemma hex_numeral_zeros n h : hex_numeral h -> hex_numeral (repeat 48 n ++ h).
Proof.
  intros [Hne Hall]. split.
  - intros E. apply app_eq_nil in E as [_ E]. contradiction.
  - apply Forall_app. split; [|assumption].
    apply Forall_forall. intros c Hc. apply repeat_spec in Hc. subst c.
    unfold hex_digit. lia.
Qed.

Lemma base16_value_zeros n h :
  base16_value (repeat 48 n ++ h) = base16_value h.
Proof.
  induction n as [|n IH]; [reflexivity|].
  cbn [repeat app base16_value]. rewrite IH. reflexivity.
Qed.

(** X5: zeros before a hexadecimal numeral, however many, change
    nothing. *)
Theorem unicode_symbol_leading_zeros (n : nat) (h : str) :
  hex_numeral h -> unicode_symbol (repeat 48 n ++ h) = unicode_symbol h.
Proof.
  intros Hh.
  rewrite (unicode_symbol_hex_numeral _ (hex_numeral_zeros n h Hh)).
  rewrite (unicode_symbol_hex_numeral h Hh).
  now rewrite base16_value_zeros.
Qed.

Lemma unicode_symbol_leading_zeros_f120 :
  unicode_symbol (lit "0000f120") = unicode_symbol (lit "f120").
Proof.
  apply (unicode_symbol_leading_zeros 4 (lit "f120")). literal_numeral.
Defined.

(** X6: a minus sign is read, and then no character comes out unless the
    numeral is zero: [ValueError] down to the smallest C [int], and
    [OverflowError] below it. *)
Theorem unicode_symbol_minus (h : str) :
  hex_numeral h ->
  unicode_symbol (45 :: h)
  = if base16_value h =? 0 then Ok [0]
    else if base16_value h <=? 2 ^ 31 then Raise ValueError
    else Raise OverflowError.
Proof.
  intros Hh. unfold unicode_symbol.
  pose proof (int16_dressed [] [45] (-1) [] h [] (Forall_nil _) sign_minus
                prefix_none Hh (Forall_nil _)) as H.
  simpl app in H. rewrite app_nil_r in H. rewrite H.
  change (rbind (Ok (-1 * base16_value h)) Py.chr)
    with (Py.chr (-1 * base16_value h)).
  replace (-1 * base16_value h) with (- base16_value h) by lia.
  pose proof (base16_value_bound h (proj2 Hh)) as [Hv _].
  generalize dependent (base16_value h). intros v _ Hv.
  unfold Py.chr.
  destruct (v =? 0) eqn:E0; destruct (v <=? 2 ^ 31) eqn:E1; bools;
    repeat match goal with
    | |- context [if ?b then _ else _] =>
        let E := fresh "E" in destruct b eqn:E; bools
    end; subst; try reflexivity; lia.
Qed.

Lemma unicode_symbol_minus_samples :
  unicode_symbol (lit "-0000") = Ok [0]
  /\ unicode_symbol (lit "-f120") = Raise ValueError
  /\ unicode_symbol (lit "-80000001") = Raise OverflowError.
Proof.
  split; [|split].
  - apply (unicode_symbol_minus (lit "0000")). literal_numeral.
  - apply (unicode_symbol_minus (lit "f120")). literal_numeral.
  - apply (unicode_symbol_minus (lit "80000001")). literal_numeral.
Defined.

(** ** The run over a catalog *)

(** X7: the catalog is printed as it is read: the run over a catalog cut
    in two prints what the run over the first part prints and, when that
    one succeeds, goes on as the run over the second part does; when it
    fails nothing of the second part is looked at. *)
Theorem print_icon_names_app
    (first second : list (str * icon_dict)) (inc : bool) :
  print_icon_names (Icons (first ++ second)) inc
  = match print_icon_names (Icons first) inc with
    | (out, Ok _) =>
        (out ++ fst (print_icon_names (Icons second) inc),
         snd (print_icon_names (Icons second) inc))
    | (out, Raise e) => (out, Raise e)
    end.
Proof.
  rewrite !print_icon_names_Icons, for_each_app.
  destruct (for_each first (print_icon inc)) as [out [[]|e]].
  - cbn [bind]. now destruct (for_each second (print_icon inc)).
  - reflexivity.
Qed.

Lemma entry_names_icon_names inc icon_name icon :
  (inc = true -> entry_aliases icon <> None) ->
  icon_names icon_name icon inc = Ok (entry_names inc (icon_name, icon)).
Proof.
  intros H. unfold entry_names. cbn [fst snd]. destruct inc.
  - destruct (entry_aliases icon) as [aliases|] eqn:E.
    + now apply icon_names_true.
    + exfalso. now apply H.
  - reflexivity.
Qed.

Lemma print_icon_raise_names inc icon_name icon e :
  icon_names icon_name icon inc = Raise e ->
  print_icon inc (icon_name, icon) = ([], Raise e).
Proof. intros H. unfold print_icon. now rewrite H. Qed.

Lemma print_icon_raise_symbol inc icon_name icon names e :
  icon_names icon_name icon inc = Ok names ->
  filter nonempty names <> [] ->
  entry_symbol icon = Raise e ->
  print_icon inc (icon_name, icon) = ([], Raise e).
Proof.
  intros Hn Hne Hs. unfold print_icon. rewrite Hn. unfold lift at 1.
  rewrite bind_ok. unfold entry_symbol in Hs.
  now rewrite (name_loop_raise _ _ e Hs Hne).
Qed.

Lemma print_icon_no_names inc icon_name icon names :
  icon_names icon_name icon inc = Ok names ->
  filter nonempty names = [] ->
  print_icon inc (icon_name, icon) = ([], Ok tt).
Proof.
  intros Hn He. unfold print_icon. rewrite Hn. unfold lift at 1.
  rewrite bind_ok, He. reflexivity.
Qed.

Lemma encodable_lines_cases (lines : list str) :
  Forall encodable lines \/ ~ Forall encodable lines.
Proof.
  induction lines as [|line lines [IH|IH]].
  - left. constructor.
  - destruct (utf8_encodable line) eqn:E.
    + left. now constructor.
    + right. intros H. apply Forall_inv in H. unfold encodable in H.
      congruence.
  - right. intros H. apply Forall_inv_tail in H. contradiction.
Qed.

(** One round of the loop either gets through the entry and prints its
    lines, or raises. *)
Lemma print_icon_cases inc item :
  (entry_passes inc item
   /\ print_icon inc item = (entry_lines inc item, Ok tt))
  \/ (~ entry_passes inc item
      /\ exists out e, print_icon inc item = (out, Raise e)).
Proof.
  destruct item as [icon_name icon].
  assert ((inc = true /\ entry_aliases icon = None)
          \/ (inc = true -> entry_aliases icon <> None)) as [[-> Ea] | Hok].
  { destruct inc; [|right; discriminate].
    destruct (entry_aliases icon); [right; discriminate | left; auto]. }
  - right. split.
    + intros [H _]. now apply H.
    + destruct (icon_names_true_raise icon_name icon Ea) as [key Hk].
      exists [], (KeyError key). now apply print_icon_raise_names.
  - pose proof (entry_names_icon_names inc icon_name icon Hok) as Hnames.
    unfold entry_passes, entry_lines. cbn [snd].
    destruct (filter nonempty (entry_names inc (icon_name, icon)))
      as [|n ns] eqn:Ef.
    + left. split; [split; [assumption | intros C; now contradiction C]|].
      etransitivity; [exact (print_icon_no_names _ _ _ _ Hnames Ef)|].
      unfold name_lines. now rewrite Ef.
    + destruct (entry_symbol icon) as [sym|e] eqn:Es.
      * destruct (encodable_lines_cases
                    (name_lines (entry_names inc (icon_name, icon)) sym))
          as [Henc | Henc].
        -- left. split; [split; [assumption | eauto]|].
           now apply print_icon_ok.
        -- right. split.
           ++ intros [_ H]. destruct H as (sym' & Hs & H); [discriminate|].
              inversion Hs; subst sym'. contradiction.
           ++ destruct (print_icon_unencodable _ _ _ _ sym Hnames Es Henc)
                as [out Hout].
              eauto.
      * right. split.
        -- intros [_ H]. destruct H as (sym & Hs & _); discriminate.
        -- exists [], e. apply (print_icon_raise_symbol _ _ _ _ e Hnames);
             [rewrite Ef; discriminate | assumption].
Qed.


Lemma filter_nonempty_all_empty names :
  Forall (fun name => name = []) names -> filter nonempty names = [].
Proof.
  induction 1 as [|n names Hn _ IH]; [reflexivity|]. subst n. exact IH.
Qed.

(** X9: an entry all of whose names are empty is passed over: nothing is
    printed for it and its unicode is not even read, so the run is the
    run over the catalog without the entry, whatever the entry has or
    lacks under [unicode]. *)
Theorem print_icon_names_skips_nameless
    (before after : list (str * icon_dict)) (icon : icon_dict) (inc : bool) :
  (inc = true ->
   exists aliases, entry_aliases icon = Some aliases
                   /\ Forall (fun alias => alias = []) aliases) ->
  print_icon_names (Icons (before ++ ([], icon) :: after)) inc
  = print_icon_names (Icons (before ++ after)) inc.
Proof.
  intros H. rewrite !print_icon_names_Icons, !for_each_app.
  cbn [for_each].
  assert (print_icon inc ([], icon) = ret tt) as ->; [|now rewrite bind_ret_l].
  destruct inc.
  - destruct (H eq_refl) as (aliases & Ha & Hall).
    apply (print_icon_no_names true [] icon ([] :: aliases)).
    + now apply icon_names_true.
    + now apply (filter_nonempty_all_empty ([] :: aliases)); constructor.
  - now apply (print_icon_no_names false [] icon [[]]).
Qed.

Lemma print_icon_names_skips_nameless_sample :
  print_icon_names
    (Icons [(lit "kitty", icon_500px);
            ([], {| icon_unicode := None; icon_search := None |});
            (lit "x", icon_500px)]) false
  = print_icon_names
      (Icons [(lit "kitty", icon_500px); (lit "x", icon_500px)]) false.
Proof.
  apply (print_icon_names_skips_nameless
           [(lit "kitty", icon_500px)] [(lit "x", icon_500px)]
           {| icon_unicode := None; icon_search := None |} false).
  discriminate.
Defined.

(** X10: an entry with a name to print and a unicode that cannot be read
    or decoded stops the run with the exception of the decoding, before
    any line of the entry: what was printed for the entries before it
    stays, and no later entry is looked at. *)
Theorem print_icon_names_bad_unicode
    (before after : list (str * icon_dict)) (icon_name : str)
    (icon : icon_dict) (inc : bool) (printed : list str) (e : exn) :
  print_icon_names (Icons before) inc = (printed, Ok tt) ->
  (inc = true -> entry_aliases icon <> None) ->
  filter nonempty (entry_names inc (icon_name, icon)) <> [] ->
  entry_symbol icon = Raise e ->
  print_icon_names (Icons (before ++ (icon_name, icon) :: after)) inc
  = (printed, Raise e).
Proof.
  intros Hb Ha Hne Hs. rewrite print_icon_names_Icons in *.
  rewrite for_each_app, Hb. cbn [for_each].
  rewrite (print_icon_raise_symbol inc icon_name icon _ e
             (entry_names_icon_names inc icon_name icon Ha) Hne Hs).
  cbn. now rewrite app_nil_r.
Qed.

Lemma print_icon_names_bad_unicode_sample :
  print_icon_names
    (Icons [(lit "kitty", icon_500px);
            (lit "bad", {| icon_unicode := Some (lit "f12g");
                           icon_search := None |});
            (lit "x", icon_500px)]) false
  = ([icon_line (lit "kitty") [0xF26E]], Raise ValueError).
Proof.
  apply (print_icon_names_bad_unicode
           [(lit "kitty", icon_500px)] [(lit "x", icon_500px)] (lit "bad")
           {| icon_unicode := Some (lit "f12g"); icon_search := None |}
           false [icon_line (lit "kitty") [0xF26E]] ValueError).
  - reflexivity.
  - discriminate.
  - discriminate.
  - reflexivity.
Defined.

(** X11: with aliases, an entry without the key [search], or without the
    key [terms] under it, stops the run with the [KeyError] of that key
    before its unicode is read: whatever its name and its unicode are,
    no line of it is printed. *)
Theorem print_icon_names_key_error
    (before after : list (str * icon_dict)) (icon_name : str)
    (icon : icon_dict) (printed : list str) :
  print_icon_names (Icons before) true = (printed, Ok tt) ->
  entry_aliases icon = None ->
  print_icon_names (Icons (before ++ (icon_name, icon) :: after)) true
  = (printed,
     Raise (KeyError match icon_search icon with
                     | None => lit "search"
                     | Some _ => lit "terms"
                     end)).
Proof.
  intros Hb Ha. rewrite print_icon_names_Icons in *.
  rewrite for_each_app, Hb. cbn [for_each].
  assert (icon_names icon_name icon true
          = Raise (KeyError match icon_search icon with
                            | None => lit "search"
                            | Some _ => lit "terms"
                            end)) as Hn.
  { unfold entry_aliases in Ha. unfold icon_names, getitem_search_terms.
    destruct (icon_search icon) as [s|]; [|reflexivity].
    destruct (search_terms s) as [[|l]|]; [discriminate|discriminate|].
    reflexivity. }
  rewrite (print_icon_raise_names true icon_name icon _ Hn).
  cbn. now rewrite app_nil_r.
Qed.

Lemma print_icon_names_key_error_sample :
  print_icon_names
    (Icons [(lit "kitty", icon_500px);
            (lit "bad", {| icon_unicode := Some (lit "f12g");
                           icon_search := None |});
            (lit "x", icon_500px)]) true
  = ([icon_line (lit "kitty") [0xF26E]; icon_line (lit "px") [0xF26E]],
     Raise (KeyError (lit "search"))).
Proof.
  apply (print_icon_names_key_error
           [(lit "kitty", icon_500px)] [(lit "x", icon_500px)] (lit "bad")
           {| icon_unicode := Some (lit "f12g"); icon_search := None |}
           [icon_line (lit "kitty") [0xF26E]; icon_line (lit "px") [0xF26E]]).
  - reflexivity.
  - reflexivity.
Defined.

(** ** With and without aliases *)

Lemma subseq_nil_l {A} (l : list A) : subseq [] l.
Proof. induction l; constructor; assumption. Qed.

Lemma subseq_app {A} (a b c d : list A) :
  subseq a b -> subseq c d -> subseq (a ++ c) (b ++ d).
Proof.
  intros Hab Hcd. induction Hab; simpl; [assumption| |]; now constructor.
Qed.

Lemma entry_passes_without_aliases item :
  entry_passes true item -> entry_passes false item.
Proof.
  intros [_ Hs]. split; [discriminate|].
  unfold entry_names, name_lines in *. cbn [filter] in *.
  destruct (nonempty (fst item)); [|intros C; now contradiction C].
  intros _. destruct Hs as (s & Hs & Henc); [discriminate|].
  exists s. split; [assumption|].
  cbn [map] in *. constructor; [exact (Forall_inv Henc) | constructor].
Qed.

Lemma entry_lines_without_aliases item :
  subseq (entry_lines false item) (entry_lines true item).
Proof.
  unfold entry_lines, name_lines, entry_names. cbn [filter].
  destruct (nonempty (fst item)); cbn [map].
  - apply subseq_take, subseq_nil_l.
  - apply subseq_nil_l.
Qed.

(** X12: aliases only add lines: when the run with aliases succeeds on a
    catalog, the run without them succeeds on it too, and its lines are
    lines of the run with aliases, in the same order. *)
Theorem print_icon_names_aliases_add
    (entries : list (str * icon_dict)) (with_aliases : list str) :
  print_icon_names (Icons entries) true = (with_aliases, Ok tt) ->
  exists without,
    print_icon_names (Icons entries) false = (without, Ok tt)
    /\ subseq without with_aliases.
Proof.
  rewrite !print_icon_names_Icons. revert with_aliases.
  induction entries as [|item entries IH]; intros out H.
  - inversion H. exists []. split; [reflexivity|constructor].
  - cbn [for_each] in *.
    destruct (print_icon_cases true item)
      as [[Hp Hrun] | [_ (o' & e & Hrun)]]; rewrite Hrun in H; [|discriminate].
    rewrite bind_ok in H. inversion H as [[Hout Hres]].
    destruct (for_each entries (print_icon true)) as [o r] eqn:Hrest.
    simpl in Hres, Hout. destruct r as [[]|]; [|discriminate].
    destruct (IH o eq_refl) as (without & Hwithout & Hsub).
    apply entry_passes_without_aliases in Hp.
    destruct (print_icon_cases false item) as [[_ Hf] | [Hn _]];
      [|contradiction].
    exists (entry_lines false item ++ without). split.
    + rewrite Hf, bind_ok, Hwithout. reflexivity.
    + simpl. apply subseq_app; [apply entry_lines_without_aliases|assumption].
Qed.

Lemma print_icon_names_aliases_add_sample :
  exists without,
    print_icon_names
      (Icons [(lit "500px", icon_empty_alias); (lit "kitty", icon_null_terms)])
      false = (without, Ok tt)
    /\ subseq without
         [icon_line (lit "500px") [0xF26E]; icon_line (lit "px") [0xF26E];
          icon_line (lit "kitty") [0xF26E]].
Proof.
  exact (print_icon_names_aliases_add
           [(lit "500px", icon_empty_alias); (lit "kitty", icon_null_terms)]
           _ eq_refl).
Defined.

(** ** Lines and addresses *)

Lemma app_inv_length {A} (a b c d : list A) :
  length a = length c -> a ++ b = c ++ d -> a = c /\ b = d.
Proof.
  revert c. induction a as [|x a IH]; intros [|y c] Hlen H;
    try discriminate; simpl in *.
  - auto.
  - inversion H; subst. destruct (IH c) as [-> ->]; auto.
Qed.

(** X13: a line tells its name and its symbol: two lines with symbols of
    the same length, as the one-character symbols of [unicode_symbol]
    are, are equal only if they have the same name and the same
    symbol. *)
Theorem icon_line_inj (name name' s s' : str) :
  length s = length s' ->
  icon_line name s = icon_line name' s' ->
  name = name' /\ s = s'.
Proof.
  intros Hlen H.
  assert (length name = length name') as Hn.
  { apply (f_equal (@length Z)) in H. rewrite !icon_line_length in H. lia. }
  unfold icon_line in H.
  apply app_inv_head in H. apply app_inv_head in H.
  apply app_inv_length in H as [-> H]; [|assumption].
  apply app_inv_head in H. apply app_inv_head in H. apply app_inv_head in H.
  apply app_inv_tail in H. auto.
Qed.

Lemma icon_line_inj_sample :
  icon_line (lit "kitty") [0xF120] <> icon_line (lit "kitt") [121]
  /\ icon_line (lit "kitty") [0xF120] <> icon_line (lit "kitty") [0xF26E].
Proof.
  split; intros H.
  - destruct (icon_line_inj (lit "kitty") (lit "kitt") [0xF120] [121]
                eq_refl H) as [Hn _].
    discriminate Hn.
  - destruct (icon_line_inj (lit "kitty") (lit "kitty") [0xF120] [0xF26E]
                eq_refl H) as [_ Hs].
    discriminate Hs.
Defined.

(** X14: the revision can be read back from the URI: two revisions give
    the same URI only if they are the same. *)
Theorem URI_inj (r r' : str) : URI r = URI r' -> r = r'.
Proof.
  unfold URI. intros H.
  apply app_inv_head in H. apply app_inv_head in H.
  now apply app_inv_tail in H.
Qed.

Lemma URI_inj_sample :
  URI (lit "master") <> URI (lit "6.x")
  /\ URI (lit "master") <> URI (lit "master/..").
Proof.
  split; intros H; apply URI_inj in H; discriminate H.
Defined.

(** ** The whole run *)



